(** * Remote ISO sharing: verification of UI/RemoteISOScreen.cpp

    A shallow embedding of the file-serving handler, the served-path table,
    the server start-up, the start/stop handlers and the peer scan of
    [UI/RemoteISOScreen.cpp], together with the properties the
    specification states about them.

    Platform assumptions of the embedding: an LP64 build that is not
    [_WIN32] unless the [win32] flag of [ExecuteServer_paths] is set
    ([long], [long long] and [size_t] are 64 bits wide, [int] is 32 bits
    wide), and a C library whose [scanf] family saturates on overflow the
    way [strtoll] does. The clock of the serving loop is a [double], here
    a binary64 [float] with its own rounding addition and comparison. *)

From Stdlib Require Import ZArith PrimFloat Strings.Byte Ascii String Decimal DecimalString DecimalPos
  DecimalZ Lia.
From stdpp Require Import gmap strings list fin_maps.

Local Open Scope Z_scope.

(** ** Machine integers *)

Module Int.

Definition s64_min : Z := - 2 ^ 63.
Definition s64_max : Z := 2 ^ 63 - 1.

(** Conversion of an integer to a signed [w]-bit one (two's complement). *)
Definition wrap (w : Z) (x : Z) : Z :=
  (x + 2 ^ (w - 1)) mod 2 ^ w - 2 ^ (w - 1).

Definition to_s64 (x : Z) : Z := wrap 64 x.

(** Saturation, as [strtoll] does on overflow. *)
Definition clamp_s64 (x : Z) : Z := Z.max s64_min (Z.min s64_max x).

Definition in_s64 (x : Z) : Prop := s64_min <= x <= s64_max.

End Int.

(** ** The printf and scanf conversions the file uses *)

Module CFormat.

(** [%lld] and [%d] on output: optional minus sign, decimal digits, no
    leading zeros. *)
Definition print_dec (z : Z) : string := NilZero.string_of_int (Z.to_int z).

(** [isspace] in the C locale. *)
Definition isspace (c : ascii) : bool :=
  let n := nat_of_ascii c in
  ((n =? 32) || ((9 <=? n) && (n <=? 13)))%nat.

Fixpoint skip_space (s : string) : string :=
  match s with
  | String c s' => if isspace c then skip_space s' else s
  | EmptyString => EmptyString
  end.

(** The longest prefix of decimal digits and what follows it. *)
Fixpoint scan_digits (s : string) : uint * string :=
  match s with
  | String c s' =>
      let '(u, rest) := scan_digits s' in
      match uint_of_char c (Some u) with
      | Some u' => (u', rest)
      | None => (Nil, s)
      end
  | EmptyString => (Nil, EmptyString)
  end.

Inductive scan_result : Type :=
| ScanEOF                              (* input ended before the number *)
| ScanMismatch                         (* no number at this place *)
| ScanOk (value : Z) (rest : string).

(** [%lld] on input: white space is skipped, then an optional sign and
    at least one decimal digit; the value saturates to the range of
    [long long]. Input that ends before the number is an input failure;
    a sign that no digit follows, also at the end of the input, is a
    matching failure. *)
Definition scan_lld (s : string) : scan_result :=
  match skip_space s with
  | EmptyString => ScanEOF
  | String c r as s1 =>
      let '(negative, s2) :=
        if Ascii.eqb c "-" then (true, r)
        else if Ascii.eqb c "+" then (false, r)
        else (false, s1) in
      match s2 with
      | EmptyString => ScanMismatch
      | _ =>
          match scan_digits s2 with
          | (Nil, _) => ScanMismatch
          | (u, rest) =>
              let v := Z.of_uint u in
              ScanOk (Int.clamp_s64 (if negative then - v else v)) rest
          end
      end
  end.

(** A literal of the format string: every character has to match. *)
Inductive literal_result : Type :=
| LitEOF
| LitMismatch
| LitOk (rest : string).

Fixpoint scan_literal (lit s : string) : literal_result :=
  match lit with
  | EmptyString => LitOk s
  | String c lit' =>
      match s with
      | EmptyString => LitEOF
      | String d s' => if Ascii.eqb c d then scan_literal lit' s' else LitMismatch
      end
  end.

(** [sscanf(s, "bytes=%lld-%lld", &begin, &last)] with [begin] and [last]
    initialised to 0: the return value ([-1] is [EOF]) and the two
    variables afterwards. *)
Definition sscanf_range (s : string) : Z * Z * Z :=
  match scan_literal "bytes=" s with
  | LitEOF => (-1, 0, 0)
  | LitMismatch => (0, 0, 0)
  | LitOk s1 =>
      match scan_lld s1 with
      | ScanEOF => (-1, 0, 0)
      | ScanMismatch => (0, 0, 0)
      | ScanOk b s2 =>
          match scan_literal "-" s2 with
          | LitOk s3 =>
              match scan_lld s3 with
              | ScanOk l _ => (2, b, l)
              | _ => (1, b, 0)
              end
          | _ => (1, b, 0)
          end
      end
  end.

Definition is_digit (c : ascii) : bool :=
  match uint_of_char c (Some Nil) with Some _ => true | None => false end.

(** A string at which a run of digits ends. *)
Definition stops (s : string) : bool :=
  match s with
  | EmptyString => true
  | String c _ => negb (is_digit c)
  end.

End CFormat.

(** ** The HTTP file handler of [ExecuteServer] *)

Module Http.

(** [http::RequestHeader::Method]. *)
Inductive Method : Type := GET | HEAD | POST | UNSUPPORTED.

Definition Method_eqb (a b : Method) : bool :=
  match a, b with
  | GET, GET | HEAD, HEAD | POST, POST | UNSUPPORTED, UNSUPPORTED => true
  | _, _ => false
  end.

(** What the handler reads of an [http::Request]: the resource, the
    method, and the header lookup [GetHeader(name, &value)], which gives
    the value when the header is there. *)
Record Request : Type := {
  resource : string;
  method : Method;
  GetHeader : string -> option string
}.

(** A [FILE*] opened for reading: the bytes that reads deliver, and
    whether [fseek] works on it. A read error at some offset is a file
    whose [contents] stop there. *)
Record CFile : Type := {
  contents : list byte;
  seekable : bool
}.

(** The file system the handler sees, and what a fresh [new char[n]]
    holds before it is written. *)
Record FileSystem : Type := {
  GetFileSize : string -> Z;
  OpenCFile : string -> option CFile;
  uninit : list byte
}.

(** What a request handler does, in order: the calls on the request's
    output and on the C file. *)
Inductive Event : Type :=
| EvHeader (status : Z) (size : Z) (mimeType : string) (otherHeaders : option string)
| EvPush (data : list byte)
| EvFlush
| EvOpen (filename : string) (ok : bool)
| EvSeek (offset : Z) (ok : bool)
| EvRead (size : Z) (items : Z)
| EvClose.

Definition CRLF : string := String (ascii_of_nat 13) (String (ascii_of_nat 10) EmptyString).

Definition text (s : string) : list byte := String.list_byte_of_string s.

Definition CHUNK_SIZE : Z := 16 * 1024.

(** [paths[key]] on a [std::map]: a missing key is inserted with the
    empty string. *)
Definition map_index (paths : gmap string string) (key : string)
  : string * gmap string string :=
  match paths !! key with
  | Some v => (v, paths)
  | None => (EmptyString, <[key := EmptyString]> paths)
  end.

(** [new char[n]]: [n] bytes of whatever the heap held. *)
Definition new_chars (fs : FileSystem) (n : nat) : list byte :=
  take n (uninit fs ++ replicate n Byte.x00).

(** [fread(buf, size, 1, fp)] at file position [fpos]: the bytes that
    are there are copied to the front of [buf], the rest of [buf] keeps
    what it held; the result is 1 when all [size] bytes were read and 0
    otherwise. *)
Definition fread (fp : CFile) (fpos : nat) (buf : list byte) (size : Z)
  : Z * list byte * nat :=
  let n := Z.to_nat size in
  let got := take n (drop fpos (contents fp)) in
  let items := if ((0 <? n) && (length got =? n))%nat then 1 else 0 in
  (items, got ++ drop (length got) buf, (fpos + length got)%nat).

(** The loop
    [for (s64 pos = 0; pos < len; pos += CHUNK_SIZE)]
    of the handler; the result of [fread] is not looked at. *)
Fixpoint stream_chunks (fuel : nat) (fp : CFile) (fpos : nat) (buf : list byte)
    (pos len : Z) : option (list Event) :=
  match fuel with
  | O => None
  | S fuel' =>
      if pos <? len then
        let chunklen := Z.min (Int.to_s64 (len - pos)) CHUNK_SIZE in
        let '(items, buf', fpos') := fread fp fpos buf chunklen in
        match stream_chunks fuel' fp fpos' buf' (Int.to_s64 (pos + CHUNK_SIZE)) len with
        | Some evs =>
            Some (EvRead chunklen items :: EvPush (take (Z.to_nat chunklen) buf') :: evs)
        | None => None
        end
      else Some []
  end.

(** The lambda [handler]. [None] is a loop that ran out of [fuel]. *)
Definition handler (fs : FileSystem) (fuel : nat) (paths : gmap string string)
    (request : Request) : option (list Event) * gmap string string :=
  let '(filename, paths') := map_index paths (resource request) in
  let sz := Int.to_s64 (GetFileSize fs filename) in
  let events :=
    if Method_eqb (method request) HEAD then
      Some [EvHeader 200 sz "application/octet-stream"
                     (Some ("Accept-Ranges: bytes" +:+ CRLF))]
    else
      match GetHeader request "range" with
      | Some range =>
          let '(n, begin, last) := CFormat.sscanf_range range in
          if negb (n =? 2) then
            Some [EvHeader 400 (-1) "text/plain" None;
                  EvPush (text "Could not understand range request.")]
          else if (begin <? 0) || (begin >? last) || (last >=? sz) then
            Some [EvHeader 416 (-1) "text/plain" None;
                  EvPush (text "Range goes outside of file.")]
          else
            match OpenCFile fs filename with
            | None =>
                Some [EvOpen filename false;
                      EvHeader 500 (-1) "text/plain" None;
                      EvPush (text "File access failed.")]
            | Some fp =>
                if negb (seekable fp) then
                  Some [EvOpen filename true; EvSeek begin false;
                        EvHeader 500 (-1) "text/plain" None;
                        EvPush (text "File access failed.");
                        EvClose]
                else
                  let len := Int.to_s64 (last - begin + 1) in
                  let contentRange :=
                    "Content-Range: bytes " +:+ CFormat.print_dec begin +:+ "-"
                      +:+ CFormat.print_dec last +:+ "/" +:+ CFormat.print_dec sz
                      +:+ CRLF in
                  let buf := new_chars fs (Z.to_nat CHUNK_SIZE) in
                  match stream_chunks fuel fp (Z.to_nat begin) buf 0 len with
                  | Some chunks =>
                      Some ([EvOpen filename true; EvSeek begin true;
                             EvHeader 206 len "application/octet-stream"
                                      (Some contentRange)]
                              ++ chunks ++ [EvClose; EvFlush])
                  | None => None
                  end
            end
      | None =>
          Some [EvHeader 418 (-1) "text/plain" None;
                EvPush (text "This server only supports range requests.")]
      end in
  (events, paths').

(** Readings of an event list. *)
Fixpoint headers (evs : list Event) : list Event :=
  match evs with
  | EvHeader st sz ty oh :: evs' => EvHeader st sz ty oh :: headers evs'
  | _ :: evs' => headers evs'
  | [] => []
  end.

Fixpoint pushed (evs : list Event) : list (list byte) :=
  match evs with
  | EvPush d :: evs' => d :: pushed evs'
  | _ :: evs' => pushed evs'
  | [] => []
  end.

Definition body (evs : list Event) : list byte := concat (pushed evs).

Fixpoint opened (evs : list Event) : bool :=
  match evs with
  | EvOpen _ _ :: _ => true
  | _ :: evs' => opened evs'
  | [] => false
  end.

End Http.

(** ** The table of served paths *)

Module Paths.

Definition char_in (c : ascii) (set : string) : bool :=
  existsb (Ascii.eqb c) (list_ascii_of_string set).

(** [s.find_last_of(set)], with [None] for [npos]; [i] is the index of
    the first character of [s]. *)
Fixpoint find_last_of_from (i : nat) (s set : string) : option nat :=
  match s with
  | EmptyString => None
  | String c s' =>
      match find_last_of_from (S i) s' set with
      | Some j => Some j
      | None => if char_in c set then Some i else None
      end
  end.

Definition find_last_of (s set : string) : option nat := find_last_of_from 0 s set.

(** [s.substr(pos)] for [pos <= s.size()]. *)
Fixpoint substr (s : string) (pos : nat) : string :=
  match pos, s with
  | O, _ => s
  | S pos', String _ s' => substr s' pos'
  | S _, EmptyString => EmptyString
  end.

Definition tolower (c : ascii) : ascii :=
  let n := nat_of_ascii c in
  if ((65 <=? n) && (n <=? 90))%nat then ascii_of_nat (n + 32) else c.

Fixpoint eq_nocase (a b : string) : bool :=
  match a, b with
  | EmptyString, EmptyString => true
  | String x a', String y b' => Ascii.eqb (tolower x) (tolower y) && eq_nocase a' b'
  | _, _ => false
  end.

(** Modelled from the spec: [endsWithNoCase] is declared outside the
    sources at hand. The specification has a file served when its
    lower-cased extension is on the white list, so this is the comparison
    of the last characters of [str] with [what], letter case ignored. *)
Definition endsWithNoCase (str what : string) : bool :=
  let n := String.length str in
  let m := String.length what in
  if (n <? m)%nat then false else eq_nocase (substr str (n - m)) what.

(** Modelled from the spec: [ReplaceAll] is declared outside the sources
    at hand. The specification has every space of the name replaced by
    [%20], so this replaces, from left to right, every occurrence of a
    non-empty [src] by [dest]; [skip] counts the characters of an
    occurrence that are still to be dropped. *)
Fixpoint ReplaceAll_from (skip : nat) (input src dest : string) : string :=
  match input with
  | EmptyString => EmptyString
  | String c input' =>
      match skip with
      | S skip' => ReplaceAll_from skip' input' src dest
      | O =>
          if String.prefix src input
          then dest +:+ ReplaceAll_from (String.length src - 1) input' src dest
          else String c (ReplaceAll_from 0 input' src dest)
      end
  end.

Definition ReplaceAll (input src dest : string) : string :=
  ReplaceAll_from 0 input src dest.

(** The separators of a path: [sep] inside the loop of [ExecuteServer]. *)
Definition sep (win32 : bool) : string :=
  if win32 then String (ascii_of_nat 92) "/" else "/".

(** [basename] of the loop body: a slash and the part of [filename]
    after its last separator. *)
Definition basename (win32 : bool) (filename : string) : string :=
  "/" +:+ match find_last_of filename (sep win32) with
          | None => filename
          | Some basepos => substr filename (basepos + 1)
          end.

(** The test of the loop body on the base name. *)
Definition served_name (win32 : bool) (filename : string) : bool :=
  endsWithNoCase (basename win32 filename) ".cso"
  || endsWithNoCase (basename win32 filename) ".iso".

(** The key a file is stored under. *)
Definition url_path (win32 : bool) (filename : string) : string :=
  ReplaceAll (basename win32 filename) " " "%20".

(** No file of [l] that is served takes the key [k]. *)
Definition key_free (win32 : bool) (k : string) (l : list string) : Prop :=
  Forall (fun g => served_name win32 g = true -> url_path win32 g <> k) l.

(** One turn of the loop over [g_Config.recentIsos]. *)
Definition add_path (win32 : bool) (paths : gmap string string) (filename : string)
  : gmap string string :=
  if served_name win32 filename
  then <[url_path win32 filename := filename]> paths
  else paths.

(** The map [paths] after the loop. *)
Definition ExecuteServer_paths (win32 : bool) (recentIsos : list string)
  : gmap string string :=
  fold_left (add_path win32) recentIsos ∅.

End Paths.

(** ** Server status, the start and stop handlers *)

Module Lifecycle.

Inductive ServerStatus : Type := STOPPED | STARTING | RUNNING | STOPPING.

Definition ServerStatus_eqb (a b : ServerStatus) : bool :=
  match a, b with
  | STOPPED, STOPPED | STARTING, STARTING | RUNNING, RUNNING
  | STOPPING, STOPPING => true
  | _, _ => false
  end.

(** [UI::EventReturn]. *)
Inductive EventReturn : Type := EVENT_DONE | EVENT_SKIPPED | EVENT_CONTINUE.

(** What a [std::thread] runs. *)
Inductive ThreadBody : Type := RunExecuteServer.

Record Thread : Type := { entry : ThreadBody; detached : bool }.

(** The statics [serverStatus] and [serverThread], and of the screen its
    [serverStopping_] flag and how often [RecreateViews] was called. *)
Record State : Type := {
  serverStatus : ServerStatus;
  serverThread : option Thread;
  serverStopping_ : bool;
  recreated : nat
}.

Definition UpdateStatus (s : ServerStatus) (st : State) : State :=
  {| serverStatus := s; serverThread := serverThread st;
     serverStopping_ := serverStopping_ st; recreated := recreated st |}.

Definition RetrieveStatus (st : State) : ServerStatus := serverStatus st.

Definition HandleStartServer (st : State) : EventReturn * State :=
  if negb (ServerStatus_eqb (serverStatus st) STOPPED) then (EVENT_SKIPPED, st)
  else
    (EVENT_DONE,
     {| serverStatus := STARTING;
        serverThread := Some {| entry := RunExecuteServer; detached := true |};
        serverStopping_ := serverStopping_ st;
        recreated := recreated st |}).

Definition HandleStopServer (st : State) : EventReturn * State :=
  if negb (ServerStatus_eqb (serverStatus st) RUNNING) then (EVENT_SKIPPED, st)
  else
    (EVENT_DONE,
     {| serverStatus := STOPPING;
        serverThread := serverThread st;
        serverStopping_ := true;
        recreated := S (recreated st) |}).

End Lifecycle.

(** ** The server thread *)

Module Server.

Import Lifecycle.

(** The fields of [g_Config] the thread uses. *)
Record Config : Type := {
  recentIsos : list string;
  iRemoteISOPort : Z
}.

(** One turn of the serving loop as the thread sees it: the status that
    [RetrieveStatus] gives at the loop test (the screen may have changed
    it), and the clock after the slice. *)
Record Tick : Type := {
  seen : ServerStatus;
  now : float
}.

(** What the thread depends on. [Listen n port] is the outcome of the
    [n]-th call of [http->Listen] (counted from 0) when asked for [port]:
    the port bound, or [None] when binding fails. [unbound_port] is what
    [http->Port()] gives when nothing was bound. *)
Record Env : Type := {
  win32 : bool;
  Listen : nat -> Z -> option Z;
  unbound_port : Z;
  start_time : float;
  ticks : list Tick
}.

Inductive RunEvent : Type :=
| RNetInit
| RListen (port : Z) (bound : option Z)
| RUpdateStatus (s : ServerStatus)
| RSetConfigPort (port : Z)
| RRegisterServer (port : Z)
| RRunSlice
| RNetShutdown.

(** The loop [while (RetrieveStatus() == ServerStatus::RUNNING)]; the
    flag tells whether the loop was left before the [ticks] ran out. *)
Fixpoint serve_loop (port : Z) (lastRegister : float) (ts : list Tick)
  : list RunEvent * bool :=
  match ts with
  | [] => ([], false)
  | t :: ts' =>
      if ServerStatus_eqb (seen t) RUNNING then
        if PrimFloat.ltb (PrimFloat.add lastRegister 540%float) (now t) then
          let '(evs, exited) := serve_loop port (now t) ts' in
          (RRunSlice :: RRegisterServer port :: evs, exited)
        else
          let '(evs, exited) := serve_loop port lastRegister ts' in
          (RRunSlice :: evs, exited)
      else ([], true)
  end.

(** The part of [ExecuteServer] that binds the listener:
    [if (!http->Listen(g_Config.iRemoteISOPort)) http->Listen(0);]
    with the calls made and the value of [http->Port()] afterwards. *)
Definition bind_listener (env : Env) (cfg : Config) : list RunEvent * Z :=
  match Listen env 0 (iRemoteISOPort cfg) with
  | Some p => ([RListen (iRemoteISOPort cfg) (Some p)], p)
  | None =>
      let second := Listen env 1 0 in
      ([RListen (iRemoteISOPort cfg) None; RListen 0 second],
       match second with Some p => p | None => unbound_port env end)
  end.

Record Run : Type := {
  paths : gmap string string;   (* the table; each key gets the handler *)
  events : list RunEvent;
  config : Config;
  returned : bool
}.

Definition ExecuteServer (env : Env) (cfg : Config) : Run :=
  let paths := Paths.ExecuteServer_paths (win32 env) (recentIsos cfg) in
  let '(binds, port) := bind_listener env cfg in
  let '(loop, exited) := serve_loop port (start_time env) (ticks env) in
  {| paths := paths;
     events := [RNetInit] ++ binds
                 ++ [RUpdateStatus RUNNING; RSetConfigPort port; RRegisterServer port]
                 ++ loop
                 ++ (if exited then [RNetShutdown; RUpdateStatus STOPPED] else []);
     config := {| recentIsos := recentIsos cfg; iRemoteISOPort := port |};
     returned := exited |}.

(** Readings of a run. *)
Fixpoint reaches (s : ServerStatus) (evs : list RunEvent) : bool :=
  match evs with
  | RUpdateStatus s' :: evs' => ServerStatus_eqb s s' || reaches s evs'
  | _ :: evs' => reaches s evs'
  | [] => false
  end.

Fixpoint listens (evs : list RunEvent) : list (Z * option Z) :=
  match evs with
  | RListen p r :: evs' => (p, r) :: listens evs'
  | _ :: evs' => listens evs'
  | [] => []
  end.

End Server.

(** ** The scan for a server *)

Module Scan.

Inductive json_type : Type :=
| JSON_NULL | JSON_OBJECT | JSON_ARRAY | JSON_STRING | JSON_INT | JSON_FLOAT | JSON_BOOL.

Definition json_type_eqb (a b : json_type) : bool :=
  match a, b with
  | JSON_NULL, JSON_NULL | JSON_OBJECT, JSON_OBJECT | JSON_ARRAY, JSON_ARRAY
  | JSON_STRING, JSON_STRING | JSON_INT, JSON_INT | JSON_FLOAT, JSON_FLOAT
  | JSON_BOOL, JSON_BOOL => true
  | _, _ => false
  end.

(** A [json_value]: the list [children] stands for the chain
    [first_child], [next_sibling], ... *)
#[warnings="-register-all"]
Inductive json_value : Type :=
  JsonValue {
    name : option string;
    type : json_type;
    string_value : string;
    int_value : Z;
    children : list json_value
  }.

(** Modelled from the spec: the accessors of [json_value] are declared
    outside the sources at hand. The specification has each entry carry a
    string field [ip] and an integer field [p]; [getString] and [getInt]
    give the value of the child with that name when it has that type, and
    the default given in the call otherwise. *)
Definition get (v : json_value) (child_name : string) : option json_value :=
  List.find (fun c => match name c with
                      | Some n => String.eqb n child_name
                      | None => false
                      end) (children v).

Definition get_typed (v : json_value) (child_name : string) (t : json_type)
  : option json_value :=
  match get v child_name with
  | Some c => if json_type_eqb t (type c) then Some c else None
  | None => None
  end.

Definition getString (v : json_value) (child_name default_value : string) : string :=
  match get_typed v child_name JSON_STRING with
  | Some c => string_value c
  | None => default_value
  end.

Definition getInt (v : json_value) (child_name : string) (default_value : Z) : Z :=
  match get_typed v child_name JSON_INT with
  | Some c => int_value c
  | None => default_value
  end.

(** A [JsonReader] after parsing. *)
Record JsonReader : Type := {
  ok : bool;
  root : option json_value
}.

Definition REPORT_HOSTNAME : string := "report.ppsspp.org".
Definition REPORT_PORT : Z := 80.

(** The network and the JSON parser as [FindServer] sees them:
    [Resolve host port] and, after it, [Connect host port] tell whether
    [http.Resolve(host, port)] and the [http.Connect()] that follows
    succeed; [GET resource] is the status code and the body. *)
Record Env : Type := {
  Resolve : string -> Z -> bool;
  Connect : string -> Z -> bool;
  GET : string -> Z * string;
  parse : string -> JsonReader
}.

Inductive NetEvent : Type :=
| NResolve (host : string) (port : Z) (ok : bool)
| NConnect (ok : bool)
| NGet (resource : string) (code : Z)
| NDisconnect.

(** The first [n] characters of [s]. *)
Fixpoint string_take (n : nat) (s : string) : string :=
  match n, s with
  | S n', String c s' => String c (string_take n' s')
  | _, _ => EmptyString
  end.

(** What the format [http://%s:%d] gives for [host] and [port]. *)
Definition full_url (host : string) (port : Z) : string :=
  "http://" +:+ host +:+ ":" +:+ CFormat.print_dec port.

(** [char url[1024] = {}; snprintf(url, sizeof(url), "http://%s:%d", host, port)]:
    at most 1023 characters are stored. *)
Definition snprintf_url (host : string) (port : Z) : string :=
  string_take 1023 (full_url host port).

(** The loop over the entries. *)
Fixpoint scan_entries (env : Env) (entries : list json_value) : string * list NetEvent :=
  match entries with
  | [] => (EmptyString, [])
  | entry :: rest =>
      let host := getString entry "ip" EmptyString in
      let port := getInt entry "p" 0 in
      let url := snprintf_url host port in
      if Resolve env host port then
        if Connect env host port then
          (url, [NResolve host port true; NConnect true; NDisconnect])
        else
          let '(r, evs) := scan_entries env rest in
          (r, NResolve host port true :: NConnect false :: evs)
      else
        let '(r, evs) := scan_entries env rest in
        (r, NResolve host port false :: evs)
  end.

(** [FindServer]: the string returned and the calls on the network. *)
Definition FindServer (env : Env) : string * list NetEvent :=
  let '(code, result, evs0) :=
    if Resolve env REPORT_HOSTNAME REPORT_PORT then
      let '(code, body) := GET env "/match/list" in
      (code, body,
       [NResolve REPORT_HOSTNAME REPORT_PORT true;
        NConnect (Connect env REPORT_HOSTNAME REPORT_PORT);
        NGet "/match/list" code; NDisconnect])
    else (500, EmptyString, [NResolve REPORT_HOSTNAME REPORT_PORT false]) in
  if negb (code =? 200) then (EmptyString, evs0)
  else
    let reader := parse env result in
    if negb (ok reader) then (EmptyString, evs0)
    else
      match root reader with
      | None => (EmptyString, evs0)
      | Some entries =>
          let '(r, evs) := scan_entries env (children entries) in
          (r, evs0 ++ evs)
      end.

(** Readings of a scan. *)
Definition candidate (entry : json_value) : string * Z :=
  (getString entry "ip" EmptyString, getInt entry "p" 0).

Definition reachable (env : Env) (c : string * Z) : bool :=
  Resolve env (fst c) (snd c) && Connect env (fst c) (snd c).

Fixpoint probed (evs : list NetEvent) : list (string * Z) :=
  match evs with
  | NResolve h p _ :: evs' => (h, p) :: probed evs'
  | _ :: evs' => probed evs'
  | [] => []
  end.

(** The directory answers with status 200 and a body that parses to a
    root with the children [entries]. *)
Definition lists (env : Env) (entries : list json_value) : Prop :=
  Resolve env REPORT_HOSTNAME REPORT_PORT = true
  /\ fst (GET env "/match/list") = 200
  /\ ok (parse env (snd (GET env "/match/list"))) = true
  /\ exists r, root (parse env (snd (GET env "/match/list"))) = Some r
               /\ children r = entries.

(** The entry has no child called [child_name] of type [t]. *)
Definition lacks (entry : json_value) (child_name : string) (t : json_type) : Prop :=
  forall c, In c (children entry) -> name c = Some child_name -> type c <> t.

End Scan.

(** ** Concrete inputs *)

Module Inputs.

Import Http.

Definition bytes_1_to_10 : list byte :=
  [Byte.x01; Byte.x02; Byte.x03; Byte.x04; Byte.x05;
   Byte.x06; Byte.x07; Byte.x08; Byte.x09; Byte.x0a].

(** One file of ten bytes. *)
Definition small_fs : FileSystem :=
  {| GetFileSize := fun _ => 10;
     OpenCFile := fun _ => Some {| contents := bytes_1_to_10; seekable := true |};
     uninit := [] |}.

(** A file that is reported as ten bytes long and gives four of them
    when read; the heap holds [0xaa] bytes. *)
Definition short_read_fs : FileSystem :=
  {| GetFileSize := fun _ => 10;
     OpenCFile := fun _ => Some {| contents := take 4 bytes_1_to_10; seekable := true |};
     uninit := replicate 16 Byte.xaa |}.

Definition one_path : gmap string string := {[ "/a.iso" := "/games/a.iso" ]}.

Definition request_for (m : Method) (range : option string) : Request :=
  {| resource := "/a.iso";
     method := m;
     GetHeader := fun h => if String.eqb h "range" then range else None |}.

Definition deaf_listener : Server.Env :=
  {| Server.win32 := false;
     Server.Listen := fun _ _ => None;
     Server.unbound_port := 0;
     Server.start_time := 0%float;
     Server.ticks := [{| Server.seen := Lifecycle.STOPPING; Server.now := 5%float |}] |}.

Definition config_8080 : Server.Config :=
  {| Server.recentIsos := ["/games/a.iso"]; Server.iRemoteISOPort := 8080 |}.

Definition json_string (n v : string) : Scan.json_value :=
  Scan.JsonValue (Some n) Scan.JSON_STRING v 0 [].

Definition json_int (n : string) (v : Z) : Scan.json_value :=
  Scan.JsonValue (Some n) Scan.JSON_INT EmptyString v [].

Definition json_object (fields : list Scan.json_value) : Scan.json_value :=
  Scan.JsonValue None Scan.JSON_OBJECT EmptyString 0 fields.

Definition json_array (items : list Scan.json_value) : Scan.json_value :=
  Scan.JsonValue None Scan.JSON_ARRAY EmptyString 0 items.

(** A directory that lists [entries], on a network where [up] tells
    which addresses answer. *)
Definition directory (entries : list Scan.json_value) (up : string -> Z -> bool)
  : Scan.Env :=
  {| Scan.Resolve := fun h p =>
       (String.eqb h Scan.REPORT_HOSTNAME && (p =? Scan.REPORT_PORT)) || up h p;
     Scan.Connect := fun _ _ => true;
     Scan.GET := fun _ => (200, "[]");
     Scan.parse := fun _ => {| Scan.ok := true; Scan.root := Some (json_array entries) |} |}.

(** A directory that cannot be queried. *)
Definition no_directory : Scan.Env :=
  {| Scan.Resolve := fun _ _ => false;
     Scan.Connect := fun _ _ => true;
     Scan.GET := fun _ => (200, "[]");
     Scan.parse := fun _ => {| Scan.ok := true; Scan.root := Some (json_array []) |} |}.

Definition peer_10_0_0_5 : Scan.json_value :=
  json_object [json_string "ip" "10.0.0.5"; json_int "p" 8080].

Definition peer_10_0_0_7 : Scan.json_value :=
  json_object [json_string "ip" "10.0.0.7"; json_int "p" 9000].

Definition peer_without_fields : Scan.json_value :=
  json_object [json_string "name" "nobody"].

(** A host name of 1100 letters. *)
Definition long_host : string := string_of_list_ascii (repeat "a"%char 1100).

Definition peer_long_host : Scan.json_value :=
  json_object [json_string "ip" long_host; json_int "p" 80].

End Inputs.

(** ** More readings of the handler's events *)

Module Answers.

Import Http.

(** How often a file was opened with success, was opened at all, and
    was closed. *)
Fixpoint count_open_ok (evs : list Event) : nat :=
  match evs with
  | EvOpen _ true :: evs' => S (count_open_ok evs')
  | _ :: evs' => count_open_ok evs'
  | [] => O
  end.

Fixpoint count_open (evs : list Event) : nat :=
  match evs with
  | EvOpen _ _ :: evs' => S (count_open evs')
  | _ :: evs' => count_open evs'
  | [] => O
  end.

Fixpoint count_close (evs : list Event) : nat :=
  match evs with
  | EvClose :: evs' => S (count_close evs')
  | _ :: evs' => count_close evs'
  | [] => O
  end.

(** The event is one the copying loop makes. *)
Definition loop_event (e : Event) : bool :=
  match e with
  | EvRead _ _ | EvPush _ => true
  | _ => false
  end.

(** The sizes of the pieces a span of [len] bytes is cut into: full
    pieces of [CHUNK_SIZE] bytes and, when something is left, a last
    shorter one. *)
Definition chunk_sizes (len : Z) : list nat :=
  replicate (Z.to_nat (len / CHUNK_SIZE)) (Z.to_nat CHUNK_SIZE)
  ++ (if len mod CHUNK_SIZE =? 0 then [] else [Z.to_nat (len mod CHUNK_SIZE)]).

(** The handler called on one request after the other; the lambda holds
    [paths] by reference, so what a call does to the map is seen by the
    next. *)
Fixpoint serve_requests (fs : FileSystem) (fuel : nat) (paths : gmap string string)
    (requests : list Request) : list (option (list Event)) * gmap string string :=
  match requests with
  | [] => ([], paths)
  | request :: rest =>
      let '(answer, paths') := handler fs fuel paths request in
      let '(answers, final) := serve_requests fs fuel paths' rest in
      (answer :: answers, final)
  end.

End Answers.

(** ** More concrete inputs *)

Module MoreInputs.

Import Http.

(** A file system on which no file opens. *)
Definition locked_fs : FileSystem :=
  {| GetFileSize := fun _ => 10;
     OpenCFile := fun _ => None;
     uninit := [] |}.

(** A file that opens and cannot be positioned. *)
Definition pipe_fs : FileSystem :=
  {| GetFileSize := fun _ => 10;
     OpenCFile := fun _ => Some {| contents := Inputs.bytes_1_to_10; seekable := false |};
     uninit := [] |}.

(** The answer to the request for bytes 2 to 5 of the ten-byte file. *)
Definition answer_2_5 : list Event :=
  [EvOpen "/games/a.iso" true; EvSeek 2 true;
   EvHeader 206 4 "application/octet-stream"
            (Some ("Content-Range: bytes 2-5/10" +:+ CRLF));
   EvRead 4 1;
   EvPush [Byte.x03; Byte.x04; Byte.x05; Byte.x06];
   EvClose; EvFlush].

End MoreInputs.

(** ** More readings of a run and of a scan *)

Module Runs.

Import Server.

(** How many slices were served, and the ports the server was
    registered with, in order. *)
Fixpoint slices (evs : list RunEvent) : nat :=
  match evs with
  | RRunSlice :: evs' => S (slices evs')
  | _ :: evs' => slices evs'
  | [] => O
  end.

Fixpoint registered (evs : list RunEvent) : list Z :=
  match evs with
  | RRegisterServer p :: evs' => p :: registered evs'
  | _ :: evs' => registered evs'
  | [] => []
  end.

End Runs.

Module Probes.

Import Scan.

(** The resources requested, and how many connections were opened with
    success and closed. *)
Fixpoint gets (evs : list NetEvent) : list string :=
  match evs with
  | NGet r _ :: evs' => r :: gets evs'
  | _ :: evs' => gets evs'
  | [] => []
  end.

Fixpoint connects (evs : list NetEvent) : nat :=
  match evs with
  | NConnect true :: evs' => S (connects evs')
  | _ :: evs' => connects evs'
  | [] => O
  end.

Fixpoint disconnects (evs : list NetEvent) : nat :=
  match evs with
  | NDisconnect :: evs' => S (disconnects evs')
  | _ :: evs' => disconnects evs'
  | [] => O
  end.

End Probes.

(** ** The screen and the server thread together *)

Module System.

Import Lifecycle.

(** Where a thread that runs [ExecuteServer] stands with respect to the
    shared status: before [UpdateStatus(RUNNING)], in the loop
    [while (RetrieveStatus() == RUNNING)], past the loop and before
    [UpdateStatus(STOPPED)], and after it. *)
Inductive Phase : Type := Binding | Serving | Leaving | Finished.

(** The statics and the screen's flags, and the threads spawned so far
    in the order of their start. *)
Record World : Type := {
  shared : State;
  threads : list Phase;
  serverRunning_ : bool
}.

(** Before anything happened: the statics are zero, the constructor of
    the screen clears its flags. *)
Definition initial : World :=
  {| shared := {| serverStatus := STOPPED; serverThread := None;
                  serverStopping_ := false; recreated := 0 |};
     threads := [];
     serverRunning_ := false |}.

(** [RemoteISOScreen::update]. *)
Definition update (w : World) : World :=
  let st := shared w in
  let nowRunning := negb (ServerStatus_eqb (RetrieveStatus st) STOPPED) in
  let st1 :=
    if serverStopping_ st && negb nowRunning then
      {| serverStatus := serverStatus st; serverThread := None;
         serverStopping_ := false; recreated := recreated st |}
    else st in
  let st2 :=
    if Bool.eqb (serverRunning_ w) nowRunning then st1
    else {| serverStatus := serverStatus st1; serverThread := serverThread st1;
            serverStopping_ := serverStopping_ st1; recreated := S (recreated st1) |} in
  {| shared := st2; threads := threads w; serverRunning_ := nowRunning |}.

(** A click on the start choice: the handler, and the thread it spawns
    when it is not skipped. *)
Definition start (w : World) : World :=
  let '(r, st) := HandleStartServer (shared w) in
  {| shared := st;
     threads := match r with
                | EVENT_DONE => threads w ++ [Binding]
                | _ => threads w
                end;
     serverRunning_ := serverRunning_ w |}.

Definition stop (w : World) : World :=
  {| shared := snd (HandleStopServer (shared w));
     threads := threads w;
     serverRunning_ := serverRunning_ w |}.

(** The next access of thread [i] to the shared status. *)
Definition thread_step (i : nat) (w : World) : World :=
  match threads w !! i with
  | Some Binding =>
      {| shared := UpdateStatus RUNNING (shared w);
         threads := <[i := Serving]> (threads w);
         serverRunning_ := serverRunning_ w |}
  | Some Serving =>
      if ServerStatus_eqb (RetrieveStatus (shared w)) RUNNING then w
      else {| shared := shared w;
              threads := <[i := Leaving]> (threads w);
              serverRunning_ := serverRunning_ w |}
  | Some Leaving =>
      {| shared := UpdateStatus STOPPED (shared w);
         threads := <[i := Finished]> (threads w);
         serverRunning_ := serverRunning_ w |}
  | _ => w
  end.

Inductive Action : Type :=
| UiStart
| UiStop
| UiUpdate
| ThreadStep (i : nat).

Definition act (w : World) (a : Action) : World :=
  match a with
  | UiStart => start w
  | UiStop => stop w
  | UiUpdate => update w
  | ThreadStep i => thread_step i w
  end.

(** Any interleaving of clicks, screen updates and thread steps. *)
Definition run (actions : list Action) (w : World) : World :=
  fold_left act actions w.

Definition live (p : Phase) : bool :=
  match p with Finished => false | _ => true end.

(** The threads that have not yet set [STOPPED]. *)
Definition live_threads (w : World) : nat :=
  length (List.filter live (threads w)).

(** The status tells where the threads stand: all are done but, unless
    the status is [STOPPED], the last one. *)
Definition consistent (w : World) : Prop :=
  exists done,
    Forall (fun p => p = Finished) done
    /\ match serverStatus (shared w) with
       | STOPPED => threads w = done
       | STARTING => threads w = done ++ [Binding]
       | RUNNING => threads w = done ++ [Serving]
       | STOPPING => threads w = done ++ [Serving] \/ threads w = done ++ [Leaving]
       end.

End System.

(** ** The connect screen *)

Module ConnectScreen.

Section Clock.

(** The clock of [real_time_now] and what the screen does with its
    readings: the constant 0, adding 30 seconds, and the comparisons
    [<=] and [<]. *)
Variable time : Type.
Variable zero : time.
Variable plus30 : time -> time.
Variable leb : time -> time -> bool.
Variable ltb : time -> time -> bool.

(** The fields of [RemoteISOConnectScreen], with the number of scan
    threads started so far and the URLs handed to [BrowseToURL]. *)
Record State : Type := {
  scanComplete_ : bool;
  url_ : string;
  nextRetry_ : time;
  scans : nat;
  browsed : list string
}.

(** The constructor: it starts the first scan. *)
Definition create : State :=
  {| scanComplete_ := false; url_ := EmptyString; nextRetry_ := zero;
     scans := 1; browsed := [] |}.

(** [ExecuteScan] on the scan thread. *)
Definition ExecuteScan (env : Scan.Env) (st : State) : State :=
  {| scanComplete_ := true; url_ := fst (Scan.FindServer env);
     nextRetry_ := nextRetry_ st; scans := scans st; browsed := browsed st |}.

Definition is_empty (s : string) : bool :=
  match s with EmptyString => true | _ => false end.

(** [update], where [now] is what [real_time_now()] gives when the
    function reads the clock. *)
Definition update (now : time) (st : State) : State :=
  if scanComplete_ st then
    if negb (is_empty (url_ st)) then
      {| scanComplete_ := scanComplete_ st; url_ := url_ st;
         nextRetry_ := nextRetry_ st; scans := scans st;
         browsed := browsed st ++ [url_ st] |}
    else if leb (nextRetry_ st) zero then
      {| scanComplete_ := scanComplete_ st; url_ := url_ st;
         nextRetry_ := plus30 now; scans := scans st; browsed := browsed st |}
    else if ltb (nextRetry_ st) now then
      {| scanComplete_ := false; url_ := url_ st;
         nextRetry_ := zero; scans := S (scans st); browsed := browsed st |}
    else st
  else st.

(** One call of [update] for every clock reading of the list. *)
Definition updates (nows : list time) (st : State) : State :=
  fold_left (fun s now => update now s) nows st.

End Clock.

End ConnectScreen.

Module RetryInputs.

(** A screen whose scan is over and found nothing, with a clock that
    counts seconds in integers. *)
Definition nothing_found : ConnectScreen.State Z :=
  {| ConnectScreen.scanComplete_ := true;
     ConnectScreen.url_ := EmptyString;
     ConnectScreen.nextRetry_ := 0;
     ConnectScreen.scans := 1;
     ConnectScreen.browsed := [] |}.

End RetryInputs.

Module Names.

(** No character of [s] separates the parts of a path. *)
Definition no_sep (win32 : bool) (s : string) : Prop :=
  Forall (fun c => Paths.char_in c (Paths.sep win32) = false) (list_ascii_of_string s).

End Names.

(** * Properties *)

(** ** Scanning what was printed *)

Section Decimal_round_trip.

Import CFormat.

#[local] Arguments String.append !_ _ / : simpl nomatch.

Lemma append_empty (s : string) : s +:+ EmptyString = s.
Proof.
  induction s as [|c s IH]; cbn [String.append]; [reflexivity | now rewrite IH].
Qed.

Lemma append_assoc (a b c : string) : (a +:+ b) +:+ c = a +:+ b +:+ c.
Proof.
  induction a as [|x a IH]; cbn [String.append]; [reflexivity | now rewrite IH].
Qed.

Lemma non_digit_any (c : ascii) (u : uint) :
  is_digit c = false -> uint_of_char c (Some u) = None.
Proof.
  unfold is_digit.
  destruct c as [[] [] [] [] [] [] [] []]; simpl; intros H;
    first [reflexivity | discriminate H].
Qed.

Lemma scan_digits_stops (rest : string) :
  stops rest = true -> scan_digits rest = (Nil, rest).
Proof.
  destruct rest as [|c r]; cbn [stops scan_digits]; [reflexivity|].
  intros H. destruct (scan_digits r) as [u r'].
  rewrite non_digit_any; [reflexivity|].
  now destruct (is_digit c).
Qed.

Lemma scan_digits_print (u : uint) (rest : string) :
  stops rest = true ->
  scan_digits (NilEmpty.string_of_uint u +:+ rest) = (u, rest).
Proof.
  intros H. induction u as [|u IH|u IH|u IH|u IH|u IH|u IH|u IH|u IH|u IH|u IH];
    cbn [NilEmpty.string_of_uint String.append scan_digits];
    [ now apply scan_digits_stops | rewrite IH; reflexivity .. ].
Qed.

Lemma scan_lld_unsigned (c : ascii) (r : string) :
  is_digit c = true ->
  scan_lld (String c r)
  = match scan_digits (String c r) with
    | (Nil, _) => ScanMismatch
    | (u, rest) => ScanOk (Int.clamp_s64 (Z.of_uint u)) rest
    end.
Proof.
  unfold is_digit.
  destruct c as [[] [] [] [] [] [] [] []]; cbn [uint_of_char];
    intros H; first [discriminate H | reflexivity].
Qed.

Lemma scan_lld_minus (r : string) :
  r <> EmptyString ->
  scan_lld (String "-" r)
  = match scan_digits r with
    | (Nil, _) => ScanMismatch
    | (u, rest) => ScanOk (Int.clamp_s64 (- Z.of_uint u)) rest
    end.
Proof. destruct r; [congruence | reflexivity]. Qed.

Lemma string_of_uint_head (u : uint) :
  u <> Nil ->
  exists c s, NilEmpty.string_of_uint u = String c s /\ is_digit c = true.
Proof. destruct u; [congruence | cbn [NilEmpty.string_of_uint]; eauto ..]. Qed.

Lemma scan_lld_digits (u : uint) (rest : string) :
  u <> Nil -> stops rest = true ->
  scan_lld (NilEmpty.string_of_uint u +:+ rest) = ScanOk (Int.clamp_s64 (Z.of_uint u)) rest.
Proof.
  intros Hu H.
  destruct (string_of_uint_head u Hu) as (c & s & E & Hc).
  pose proof (scan_digits_print u rest H) as P.
  rewrite E in *. cbn [String.append] in *.
  rewrite (scan_lld_unsigned _ _ Hc), P.
  now destruct u.
Qed.

Lemma scan_lld_minus_digits (u : uint) (rest : string) :
  u <> Nil -> stops rest = true ->
  scan_lld (String "-" (NilEmpty.string_of_uint u +:+ rest))
  = ScanOk (Int.clamp_s64 (- Z.of_uint u)) rest.
Proof.
  intros Hu H.
  rewrite scan_lld_minus, (scan_digits_print u rest H); [now destruct u|].
  destruct (string_of_uint_head u Hu) as (c & s & E & _).
  rewrite E. discriminate.
Qed.

Lemma of_uint_to_uint (p : positive) : Z.of_uint (Pos.to_uint p) = Z.pos p.
Proof. unfold Z.of_uint. now rewrite DecimalPos.Unsigned.of_to. Qed.

Lemma nilzero_nonnil (u : uint) :
  u <> Nil -> NilZero.string_of_uint u = NilEmpty.string_of_uint u.
Proof. destruct u; [congruence | reflexivity ..]. Qed.

(** [%lld] reads back what [%lld] printed, when no digit follows. *)
Lemma scan_lld_print (z : Z) (rest : string) :
  stops rest = true ->
  scan_lld (print_dec z +:+ rest) = ScanOk (Int.clamp_s64 z) rest.
Proof.
  intros H. unfold print_dec. destruct z as [|p|p]; cbn [Z.to_int NilZero.string_of_int].
  - change (NilZero.string_of_uint zero) with (NilEmpty.string_of_uint (D0 Nil)).
    now rewrite scan_lld_digits.
  - pose proof (DecimalPos.Unsigned.to_uint_nonnil p) as Hp.
    rewrite (nilzero_nonnil _ Hp), (scan_lld_digits _ _ Hp H).
    now rewrite of_uint_to_uint.
  - pose proof (DecimalPos.Unsigned.to_uint_nonnil p) as Hp.
    rewrite (nilzero_nonnil _ Hp). cbn [String.append].
    rewrite (scan_lld_minus_digits _ _ Hp H).
    now rewrite of_uint_to_uint.
Qed.

(** The header value [bytes=<a>-<b>] is understood as the pair of its
    two numbers, each brought into the range of [long long]. *)
Lemma sscanf_range_print (a b : Z) :
  sscanf_range ("bytes=" +:+ print_dec a +:+ "-" +:+ print_dec b)
  = (2, Int.clamp_s64 a, Int.clamp_s64 b).
Proof.
  unfold sscanf_range. cbn [String.append scan_literal Ascii.eqb Bool.eqb].
  rewrite scan_lld_print by reflexivity.
  cbn [String.append scan_literal Ascii.eqb Bool.eqb].
  rewrite <- (append_empty (print_dec b)).
  rewrite scan_lld_print by reflexivity.
  reflexivity.
Qed.

End Decimal_round_trip.

(** ** Machine integers in range *)

Lemma clamp_s64_id (z : Z) : Int.in_s64 z -> Int.clamp_s64 z = z.
Proof. unfold Int.in_s64, Int.clamp_s64, Int.s64_min, Int.s64_max. lia. Qed.

Lemma to_s64_id (z : Z) : Int.in_s64 z -> Int.to_s64 z = z.
Proof.
  unfold Int.in_s64, Int.to_s64, Int.wrap, Int.s64_min, Int.s64_max. intros H.
  rewrite Z.mod_small; lia.
Qed.

Lemma to_s64_range (z : Z) : Int.in_s64 (Int.to_s64 z).
Proof.
  unfold Int.in_s64, Int.to_s64, Int.wrap, Int.s64_min, Int.s64_max.
  pose proof (Z.mod_pos_bound (z + 2 ^ (64 - 1)) (2 ^ 64) ltac:(lia)). lia.
Qed.

(** ** The file handler *)

Section Handler.

Import Http.

#[local] Arguments String.append !_ _ / : simpl nomatch.

Lemma map_index_served (paths : gmap string string) (key filename : string) :
  paths !! key = Some filename -> map_index paths key = (filename, paths).
Proof. unfold map_index. now intros ->. Qed.

Lemma headers_app (a b : list Event) : headers (a ++ b) = headers a ++ headers b.
Proof.
  induction a as [|[] a IH]; cbn [headers app]; rewrite ?IH; reflexivity.
Qed.

Lemma pushed_app (a b : list Event) : pushed (a ++ b) = pushed a ++ pushed b.
Proof.
  induction a as [|[] a IH]; cbn [pushed app]; rewrite ?IH; reflexivity.
Qed.

(** A read inside the file fills the front of the buffer. *)
Lemma fread_inside (fp : CFile) (fpos : nat) (buf : list byte) (size : Z) :
  0 < size ->
  Z.of_nat fpos + size <= Z.of_nat (length (contents fp)) ->
  let n := Z.to_nat size in
  let got := take n (drop fpos (contents fp)) in
  fread fp fpos buf size = (1, got ++ drop n buf, (fpos + n)%nat)
  /\ length got = n.
Proof.
  intros Hs Hle n got.
  assert (Hlen : length got = n).
  { subst got. rewrite length_take, length_drop. lia. }
  split; [|exact Hlen].
  unfold fread. fold n. fold got. rewrite Hlen.
  rewrite Nat.eqb_refl.
  destruct (0 <? n)%nat eqn:E; [reflexivity|].
  apply Nat.ltb_ge in E. lia.
Qed.

(** The loop sends the bytes from the file position on, in pieces of at
    most [CHUNK_SIZE] bytes, when the file holds them. *)
Lemma stream_chunks_inside (fp : CFile) (len : Z) :
  len <= 2 ^ 63 - CHUNK_SIZE ->
  forall (fuel fpos : nat) (buf : list byte) (pos : Z),
    0 <= pos ->
    Z.of_nat fpos + (len - pos) <= Z.of_nat (length (contents fp)) ->
    (Z.to_nat (len - pos) < fuel)%nat ->
    exists evs,
      stream_chunks fuel fp fpos buf pos len = Some evs
      /\ headers evs = []
      /\ body evs = take (Z.to_nat (len - pos)) (drop fpos (contents fp))
      /\ Forall (fun c => Z.of_nat (length c) <= CHUNK_SIZE) (pushed evs).
Proof.
  intros Hlen. unfold CHUNK_SIZE in *.
  induction fuel as [|fuel IH]; intros fpos buf pos Hpos Hdata Hfuel; [lia|].
  cbn [stream_chunks]. unfold CHUNK_SIZE.
  destruct (pos <? len) eqn:E.
  - apply Z.ltb_lt in E.
    rewrite (to_s64_id (len - pos))
      by (unfold Int.in_s64, Int.s64_min, Int.s64_max; lia).
    rewrite (to_s64_id (pos + 16 * 1024))
      by (unfold Int.in_s64, Int.s64_min, Int.s64_max; lia).
    set (chunklen := Z.min (len - pos) (16 * 1024)).
    destruct (fread_inside fp fpos buf chunklen) as [Hread Hgot];
      [subst chunklen; lia | subst chunklen; lia |].
    cbv zeta in Hread, Hgot. rewrite Hread.
    destruct (IH (fpos + Z.to_nat chunklen)%nat
                 (take (Z.to_nat chunklen) (drop fpos (contents fp))
                    ++ drop (Z.to_nat chunklen) buf)
                 (pos + 16 * 1024)) as (evs & -> & Hh & Hb & Hc);
      [lia | subst chunklen; lia | subst chunklen; lia |].
    eexists. split; [reflexivity|]. split; [exact Hh|]. split.
    + unfold body in *. cbn [pushed concat]. rewrite Hb.
      rewrite (take_app_length' _ _ _ (eq_sym Hgot)).
      rewrite <- drop_drop, take_take_drop. f_equal. subst chunklen. lia.
    + cbn [pushed]. constructor; [|exact Hc].
      rewrite (take_app_length' _ _ _ (eq_sym Hgot)), Hgot. subst chunklen. lia.
  - apply Z.ltb_ge in E. exists []. repeat split; try constructor.
    replace (Z.to_nat (len - pos)) with 0%nat by lia. reflexivity.
Qed.

(** The loop writes no header, whatever the reads give: once it runs,
    the status of the answer stays what it was. *)
Lemma stream_chunks_no_header (fp : CFile) (len : Z) :
  forall (fuel fpos : nat) (buf : list byte) (pos : Z) (evs : list Event),
    stream_chunks fuel fp fpos buf pos len = Some evs -> headers evs = [].
Proof.
  induction fuel as [|fuel IH]; intros fpos buf pos evs; cbn [stream_chunks];
    [discriminate|].
  destruct (pos <? len); [|now intros [= <-]].
  destruct (fread fp fpos buf _) as [[items buf'] fpos'].
  destruct (stream_chunks fuel fp fpos' buf' _ len) as [rest|] eqn:E; [|discriminate].
  intros [= <-]. cbn [headers]. now apply (IH _ _ _ _ E).
Qed.

End Handler.

Section Handler_responses.

Import Http.

#[local] Arguments String.append !_ _ / : simpl nomatch.

Variable fs : FileSystem.
Variable paths : gmap string string.
Variable request : Request.
Variable filename : string.
Hypothesis served : paths !! resource request = Some filename.

Let fileSize : Z := GetFileSize fs filename.

(** C9. A HEAD request for a served path is answered with status 200, the
    size of the file as Content-Length, the type application/octet-stream
    and the header Accept-Ranges: bytes; nothing is pushed as a body and
    the file is not opened. *)
Theorem head_answer (fuel : nat) :
  method request = HEAD ->
  Int.in_s64 fileSize ->
  handler fs fuel paths request
  = (Some [EvHeader 200 fileSize "application/octet-stream"
                    (Some ("Accept-Ranges: bytes" +:+ CRLF))], paths)
  /\ body [EvHeader 200 fileSize "application/octet-stream"
                    (Some ("Accept-Ranges: bytes" +:+ CRLF))] = [].
Proof.
  intros Hm Hs. split; [|reflexivity].
  unfold handler. rewrite (map_index_served _ _ _ served), Hm.
  cbn [Method_eqb]. fold fileSize. now rewrite (to_s64_id _ Hs).
Qed.

(** C8. A range [bytes=<start>-<end>] with [start < 0], [start > end] or
    [end >= fileSize] is answered with status 416 and the plain-text
    body "Range goes outside of file."; the file is not opened and none
    of its bytes is sent. *)
Theorem range_outside_file (fuel : nat) (start end_ : Z) :
  method request = GET ->
  GetHeader request "range"
  = Some ("bytes=" +:+ CFormat.print_dec start +:+ "-" +:+ CFormat.print_dec end_) ->
  Int.in_s64 fileSize ->
  start < 0 \/ start > end_ \/ end_ >= fileSize ->
  let answer := [EvHeader 416 (-1) "text/plain" None;
                 EvPush (text "Range goes outside of file.")] in
  handler fs fuel paths request = (Some answer, paths)
  /\ opened answer = false
  /\ body answer = text "Range goes outside of file.".
Proof.
  intros Hm Hr Hs Hout answer. split; [|split; reflexivity].
  unfold handler. rewrite (map_index_served _ _ _ served), Hm, Hr.
  cbn [Method_eqb]. rewrite sscanf_range_print. fold fileSize.
  rewrite (to_s64_id _ Hs). cbn [Z.eqb Pos.eqb negb].
  assert (E : (Int.clamp_s64 start <? 0) || (Int.clamp_s64 start >? Int.clamp_s64 end_)
              || (Int.clamp_s64 end_ >=? fileSize) = true).
  { unfold Int.in_s64, Int.clamp_s64, Int.s64_min, Int.s64_max in *.
    apply Bool.orb_true_iff. rewrite Bool.orb_true_iff.
    rewrite Z.ltb_lt, Z.gtb_gt, Z.geb_ge. lia. }
  now rewrite E.
Qed.

(** C1. A range [bytes=<start>-<end>] with [0 <= start <= end < fileSize]
    on a file that opens, seeks and holds its [fileSize] bytes is
    answered with status 206, Content-Range
    [bytes <start>-<end>/<fileSize>], Content-Length [end-start+1] and as
    body the bytes [start..end] of the file, pushed in pieces of at most
    16 KiB. *)
Theorem range_served (fuel : nat) (fp : CFile) (start end_ : Z) :
  method request = GET ->
  GetHeader request "range"
  = Some ("bytes=" +:+ CFormat.print_dec start +:+ "-" +:+ CFormat.print_dec end_) ->
  OpenCFile fs filename = Some fp ->
  seekable fp = true ->
  fileSize = Z.of_nat (length (contents fp)) ->
  fileSize <= 2 ^ 63 - CHUNK_SIZE ->
  0 <= start <= end_ /\ end_ < fileSize ->
  (Z.to_nat (end_ - start + 1) < fuel)%nat ->
  exists evs,
    handler fs fuel paths request = (Some evs, paths)
    /\ headers evs
       = [EvHeader 206 (end_ - start + 1) "application/octet-stream"
            (Some ("Content-Range: bytes " +:+ CFormat.print_dec start +:+ "-"
                     +:+ CFormat.print_dec end_ +:+ "/" +:+ CFormat.print_dec fileSize
                     +:+ CRLF))]
    /\ body evs = take (Z.to_nat (end_ - start + 1)) (drop (Z.to_nat start) (contents fp))
    /\ Z.of_nat (length (body evs)) = end_ - start + 1
    /\ Forall (fun c => Z.of_nat (length c) <= 16 * 1024) (pushed evs).
Proof.
  intros Hm Hr Ho Hk Hsize Hbig [Hse He] Hfuel.
  assert (Hc : CHUNK_SIZE = 16 * 1024) by reflexivity.
  assert (R : forall z, 0 <= z <= fileSize -> Int.in_s64 z)
    by (unfold Int.in_s64, Int.s64_min, Int.s64_max; lia).
  destruct (stream_chunks_inside fp (end_ - start + 1) ltac:(lia) fuel
              (Z.to_nat start) (new_chars fs (Z.to_nat CHUNK_SIZE)) 0)
    as (chunks & Hrun & Hh & Hb & Hp); [lia | lia | lia |].
  rewrite Z.sub_0_r in Hb.
  exists ([EvOpen filename true; EvSeek start true;
           EvHeader 206 (end_ - start + 1) "application/octet-stream"
             (Some ("Content-Range: bytes " +:+ CFormat.print_dec start +:+ "-"
                      +:+ CFormat.print_dec end_ +:+ "/" +:+ CFormat.print_dec fileSize
                      +:+ CRLF))]
            ++ chunks ++ [EvClose; EvFlush]).
  assert (Hbody : forall pre, pushed pre = [] ->
            body (pre ++ chunks ++ [EvClose; EvFlush]) = body chunks).
  { intros pre Hpre. unfold body. f_equal.
    rewrite !pushed_app, Hpre. cbn [pushed app]. now rewrite app_nil_r. }
  split; [|split; [|split; [|split]]].
  - unfold handler. rewrite (map_index_served _ _ _ served), Hm, Hr.
    cbn [Method_eqb]. rewrite sscanf_range_print. fold fileSize.
    rewrite (to_s64_id fileSize), (clamp_s64_id start), (clamp_s64_id end_)
      by (apply R; lia).
    cbn [Z.eqb Pos.eqb negb].
    replace ((start <? 0) || (start >? end_) || (end_ >=? fileSize)) with false.
    2:{ symmetry. rewrite !Bool.orb_false_iff, Z.ltb_ge, Z.gtb_ltb, Z.ltb_ge, Z.geb_leb,
          Z.leb_gt. lia. }
    rewrite Ho, Hk. cbn [negb].
    rewrite (to_s64_id (end_ - start + 1)) by (apply R; lia).
    now rewrite Hrun.
  - rewrite !headers_app, Hh. reflexivity.
  - rewrite Hbody by reflexivity. exact Hb.
  - rewrite Hbody by reflexivity. rewrite Hb, length_take, length_drop. lia.
  - rewrite !pushed_app. cbn [pushed app]. rewrite app_nil_r. now rewrite <- Hc.
Qed.

(** When the file does not open, the answer is status 500 with a
    plain-text body, and nothing else is sent. *)
Lemma open_failure_500 (fuel : nat) (start end_ : Z) :
  method request = GET ->
  GetHeader request "range"
  = Some ("bytes=" +:+ CFormat.print_dec start +:+ "-" +:+ CFormat.print_dec end_) ->
  Int.in_s64 fileSize ->
  0 <= start <= end_ /\ end_ < fileSize ->
  OpenCFile fs filename = None ->
  handler fs fuel paths request
  = (Some [EvOpen filename false; EvHeader 500 (-1) "text/plain" None;
           EvPush (text "File access failed.")], paths).
Proof.
  intros Hm Hr Hs [Hse He] Ho.
  unfold handler. rewrite (map_index_served _ _ _ served), Hm, Hr.
  cbn [Method_eqb]. rewrite sscanf_range_print. fold fileSize.
  rewrite (to_s64_id fileSize), (clamp_s64_id start), (clamp_s64_id end_)
    by (unfold Int.in_s64, Int.s64_min, Int.s64_max in *; lia).
  cbn [Z.eqb Pos.eqb negb].
  replace ((start <? 0) || (start >? end_) || (end_ >=? fileSize)) with false.
  2:{ symmetry. rewrite !Bool.orb_false_iff, Z.ltb_ge, Z.gtb_ltb, Z.ltb_ge, Z.geb_leb,
        Z.leb_gt. lia. }
  now rewrite Ho.
Qed.

(** When [fseek] fails, the answer is status 500 with a plain-text body;
    the file is closed and nothing of it is sent. *)
Lemma seek_failure_500 (fuel : nat) (fp : CFile) (start end_ : Z) :
  method request = GET ->
  GetHeader request "range"
  = Some ("bytes=" +:+ CFormat.print_dec start +:+ "-" +:+ CFormat.print_dec end_) ->
  Int.in_s64 fileSize ->
  0 <= start <= end_ /\ end_ < fileSize ->
  OpenCFile fs filename = Some fp ->
  seekable fp = false ->
  handler fs fuel paths request
  = (Some [EvOpen filename true; EvSeek start false;
           EvHeader 500 (-1) "text/plain" None;
           EvPush (text "File access failed."); EvClose], paths).
Proof.
  intros Hm Hr Hs [Hse He] Ho Hk.
  unfold handler. rewrite (map_index_served _ _ _ served), Hm, Hr.
  cbn [Method_eqb]. rewrite sscanf_range_print. fold fileSize.
  rewrite (to_s64_id fileSize), (clamp_s64_id start), (clamp_s64_id end_)
    by (unfold Int.in_s64, Int.s64_min, Int.s64_max in *; lia).
  cbn [Z.eqb Pos.eqb negb].
  replace ((start <? 0) || (start >? end_) || (end_ >=? fileSize)) with false.
  2:{ symmetry. rewrite !Bool.orb_false_iff, Z.ltb_ge, Z.gtb_ltb, Z.ltb_ge, Z.geb_leb,
        Z.leb_gt. lia. }
  now rewrite Ho, Hk.
Qed.

(** Once the file is open and positioned, the answer carries the
    status 206 and no other header, whatever the file gives when read. *)
Lemma streaming_status_206 (fuel : nat) (fp : CFile) (start end_ : Z) (evs : list Event) :
  method request = GET ->
  GetHeader request "range"
  = Some ("bytes=" +:+ CFormat.print_dec start +:+ "-" +:+ CFormat.print_dec end_) ->
  Int.in_s64 fileSize ->
  0 <= start <= end_ /\ end_ < fileSize ->
  OpenCFile fs filename = Some fp ->
  seekable fp = true ->
  fst (handler fs fuel paths request) = Some evs ->
  exists size other, headers evs = [EvHeader 206 size "application/octet-stream" other].
Proof.
  intros Hm Hr Hs [Hse He] Ho Hk.
  unfold handler. rewrite (map_index_served _ _ _ served), Hm, Hr.
  cbn [Method_eqb]. rewrite sscanf_range_print. fold fileSize.
  rewrite (to_s64_id fileSize), (clamp_s64_id start), (clamp_s64_id end_)
    by (unfold Int.in_s64, Int.s64_min, Int.s64_max in *; lia).
  cbn [Z.eqb Pos.eqb negb].
  replace ((start <? 0) || (start >? end_) || (end_ >=? fileSize)) with false.
  2:{ symmetry. rewrite !Bool.orb_false_iff, Z.ltb_ge, Z.gtb_ltb, Z.ltb_ge, Z.geb_leb,
        Z.leb_gt. lia. }
  rewrite Ho, Hk. cbn [negb fst].
  destruct (stream_chunks _ _ _ _ _ _) as [chunks|] eqn:E; [|discriminate].
  intros [= <-]. apply stream_chunks_no_header in E.
  cbn [app headers]. rewrite headers_app, E. cbn [headers app]. eauto.
Qed.

End Handler_responses.

Section Handler_examples.

Import Http Inputs.

Lemma head_answer_witness :
  handler small_fs 0 one_path (request_for HEAD None)
  = (Some [EvHeader 200 10 "application/octet-stream"
                    (Some ("Accept-Ranges: bytes" +:+ CRLF))], one_path)
  /\ body [EvHeader 200 10 "application/octet-stream"
                    (Some ("Accept-Ranges: bytes" +:+ CRLF))] = [].
Proof.
  apply (head_answer small_fs one_path (request_for HEAD None) "/games/a.iso").
  - reflexivity.
  - reflexivity.
  - unfold Int.in_s64, Int.s64_min, Int.s64_max. simpl. lia.
Defined.

Lemma range_outside_file_witness :
  handler small_fs 0 one_path (request_for GET (Some "bytes=4-10"))
  = (Some [EvHeader 416 (-1) "text/plain" None;
           EvPush (text "Range goes outside of file.")], one_path)
  /\ opened [EvHeader 416 (-1) "text/plain" None;
             EvPush (text "Range goes outside of file.")] = false
  /\ body [EvHeader 416 (-1) "text/plain" None;
           EvPush (text "Range goes outside of file.")]
     = text "Range goes outside of file.".
Proof.
  apply (range_outside_file small_fs one_path (request_for GET (Some "bytes=4-10"))
           "/games/a.iso" eq_refl 0 4 10).
  - reflexivity.
  - reflexivity.
  - unfold Int.in_s64, Int.s64_min, Int.s64_max. simpl. lia.
  - simpl. lia.
Defined.

Lemma range_served_witness :
  exists evs,
    handler small_fs 5 one_path (request_for GET (Some "bytes=2-5")) = (Some evs, one_path)
    /\ headers evs
       = [EvHeader 206 4 "application/octet-stream"
            (Some ("Content-Range: bytes 2-5/10" +:+ CRLF))]
    /\ body evs = [Byte.x03; Byte.x04; Byte.x05; Byte.x06]
    /\ Z.of_nat (length (body evs)) = 4
    /\ Forall (fun c => Z.of_nat (length c) <= 16 * 1024) (pushed evs).
Proof.
  apply (range_served small_fs one_path (request_for GET (Some "bytes=2-5"))
           "/games/a.iso" eq_refl 5
           {| contents := bytes_1_to_10; seekable := true |} 2 5).
  - reflexivity.
  - reflexivity.
  - reflexivity.
  - reflexivity.
  - reflexivity.
  - unfold CHUNK_SIZE. simpl. lia.
  - simpl. lia.
  - simpl. lia.
Defined.

(** C4, at a read that fails. The file is reported as ten bytes long and
    gives four bytes when read. The request for bytes 0 to 7 is answered
    with status 206 and Content-Length 8; [fread] reports 0 items, which
    the handler does not look at, and the eight bytes pushed are the four
    of the file followed by four bytes the buffer held before. No status
    500 is sent and the transfer goes on to its end. *)
Theorem read_failure_not_reported :
  fst (handler short_read_fs 3 one_path (request_for GET (Some "bytes=0-7")))
  = Some [EvOpen "/games/a.iso" true; EvSeek 0 true;
          EvHeader 206 8 "application/octet-stream"
                   (Some ("Content-Range: bytes 0-7/10" +:+ CRLF));
          EvRead 8 0;
          EvPush [Byte.x01; Byte.x02; Byte.x03; Byte.x04;
                  Byte.xaa; Byte.xaa; Byte.xaa; Byte.xaa];
          EvClose; EvFlush].
Proof. vm_compute. reflexivity. Qed.

End Handler_examples.

(** ** The table of served paths *)

Section Served_table.

Import Paths.

Variable win32 : bool.

Let served := served_name win32.
Let key := url_path win32.
Let table := fold_left (add_path win32).
Let key_free := Paths.key_free win32.

Lemma add_path_lookup (acc : gmap string string) (a k f : string) :
  add_path win32 acc a !! k = Some f
  <-> (served a = true /\ key a = k /\ a = f)
      \/ ((served a = true -> key a <> k) /\ acc !! k = Some f).
Proof.
  unfold add_path, served, key. destruct (served_name win32 a) eqn:Es.
  - destruct (decide (url_path win32 a = k)) as [<-|Hne].
    + rewrite lookup_insert_eq. split.
      * intros [= <-]. now left.
      * intros [(_ & _ & <-)|[Hk _]]; [reflexivity | now destruct Hk].
    + rewrite lookup_insert_ne by exact Hne. split.
      * intros H. right. split; [intros _; exact Hne | exact H].
      * intros [(_ & E & _)|[_ H]]; [contradiction | exact H].
  - split.
    + intros H. right. split; [discriminate | exact H].
    + intros [(E & _)|[_ H]]; [discriminate | exact H].
Qed.

(** What the loop leaves under a key: the last served file with that
    key, or what was there before when no file takes the key. *)
Lemma table_lookup (isos : list string) :
  forall (acc : gmap string string) (k f : string),
    table isos acc !! k = Some f
    <-> (exists l1 l2, isos = l1 ++ f :: l2 /\ served f = true /\ key f = k
                       /\ key_free k l2)
        \/ (acc !! k = Some f /\ key_free k isos).
Proof.
  unfold table, key_free, Paths.key_free.
  induction isos as [|a isos IH]; intros acc k f; cbn [fold_left].
  - split.
    + intros H. right. split; [exact H | constructor].
    + intros [(l1 & l2 & E & _)|[H _]]; [now destruct l1 | exact H].
  - rewrite IH, add_path_lookup. split.
    + intros [(l1 & l2 & -> & Hs & Hk & Hf)|[[(Hs & Hk & <-)|[Hn Ha]] Hf]].
      * left. exists (a :: l1), l2. auto.
      * left. exists [], isos. auto.
      * right. split; [exact Ha | constructor; assumption].
    + intros [(l1 & l2 & E & Hs & Hk & Hf)|[Ha Hf]].
      * destruct l1 as [|b l1]; injection E as -> ->.
        -- right. split; [left; auto | exact Hf].
        -- left. exists l1, l2. auto.
      * inversion Hf as [|? ? Hn Hf']; subst. right. split; [right; auto | exact Hf'].
Qed.

Lemma table_keeps (isos : list string) :
  forall (acc : gmap string string) (k : string),
    is_Some (acc !! k) -> is_Some (table isos acc !! k).
Proof.
  unfold table.
  induction isos as [|a isos IH]; intros acc k H; cbn [fold_left]; [exact H|].
  apply IH. unfold add_path. destruct (served_name win32 a); [|exact H].
  destruct (decide (url_path win32 a = k)) as [<-|Hne].
  - rewrite lookup_insert_eq. eauto.
  - now rewrite lookup_insert_ne.
Qed.

Lemma table_has_key (isos : list string) :
  forall (acc : gmap string string) (f : string),
    In f isos -> served f = true -> is_Some (table isos acc !! key f).
Proof.
  unfold table, served, key.
  induction isos as [|a isos IH]; intros acc f Hin Hs; [destruct Hin|].
  cbn [fold_left]. destruct Hin as [->|Hin].
  - apply table_keeps. unfold add_path. rewrite Hs, lookup_insert_eq. eauto.
  - now apply IH.
Qed.

End Served_table.

(** C2, as the code has it. The table holds only files of the list whose
    name ends in [.cso] or [.iso], letter case ignored, each under the
    key made of a slash and its base name with every space replaced by
    [%20]; the key of every such file of the list is in the table; a key
    that several such files share is bound to the last of them in the
    list; a file of the list whose name does not end so is bound to no
    key. The file [C:/games/Foo Bar.iso] is served at [/Foo%20Bar.iso]. *)
Theorem served_table (win32 : bool) (recentIsos : list string) :
  let paths := Paths.ExecuteServer_paths win32 recentIsos in
  (forall k f,
      paths !! k = Some f
      <-> exists l1 l2,
            recentIsos = l1 ++ f :: l2
            /\ Paths.served_name win32 f = true
            /\ Paths.url_path win32 f = k
            /\ Forall (fun g => Paths.served_name win32 g = true
                                -> Paths.url_path win32 g <> k) l2)
  /\ (forall f, In f recentIsos -> Paths.served_name win32 f = true ->
                is_Some (paths !! Paths.url_path win32 f))
  /\ (forall f k, Paths.served_name win32 f = false -> paths !! k <> Some f)
  /\ Paths.ExecuteServer_paths win32 ["C:/games/Foo Bar.iso"] !! "/Foo%20Bar.iso"
     = Some "C:/games/Foo Bar.iso".
Proof.
  intros paths. subst paths. unfold Paths.ExecuteServer_paths.
  split; [|split; [|split]].
  - intros k f. rewrite table_lookup. rewrite lookup_empty. unfold Paths.key_free.
    split; [intros [H|[H _]]; [exact H | discriminate] | intros H; now left].
  - intros f Hin Hs. now apply table_has_key.
  - intros f k Hs H. apply table_lookup in H.
    destruct H as [(l1 & l2 & _ & Hs' & _)|[H _]]; [congruence|].
    now rewrite lookup_empty in H.
  - apply table_lookup. left. exists [], []. destruct win32; repeat split; constructor.
Qed.

(** C2 as stated fails: of two files with the same base name the first
    one is a file of the list with the extension [.iso], and the table
    binds no key to it. *)
Lemma shared_basename_counterexample :
  In "/a/x.iso" ["/a/x.iso"; "/b/x.iso"]
  /\ Paths.served_name false "/a/x.iso" = true
  /\ forall k, Paths.ExecuteServer_paths false ["/a/x.iso"; "/b/x.iso"] !! k
               <> Some "/a/x.iso".
Proof.
  split; [now left|]. split; [reflexivity|].
  intros k H. apply table_lookup in H.
  destruct H as [(l1 & l2 & E & _ & <- & Hfree)|[H _]];
    [|now rewrite lookup_empty in H].
  destruct l1 as [|b [|c [|d l1]]]; simplify_eq/=.
  inversion Hfree as [|? ? Hb _]; subst. now apply Hb.
Qed.

(** ** Start and stop *)

Section Start_stop.

Import Lifecycle.

(** C7. Start changes the state only when the server is stopped: the
    status becomes [STARTING] and the server thread is spawned; in every
    other status the state stays as it is and the result is
    [EVENT_SKIPPED]. Stop changes the state only when the server is
    running: the status becomes [STOPPING]; in every other status the
    state stays as it is and the result is [EVENT_SKIPPED]. *)
Theorem start_stop_guarded (st : State) :
  ((serverStatus st = STOPPED
    /\ fst (HandleStartServer st) = EVENT_DONE
    /\ serverStatus (snd (HandleStartServer st)) = STARTING
    /\ serverThread (snd (HandleStartServer st))
       = Some {| entry := RunExecuteServer; detached := true |})
   \/ (serverStatus st <> STOPPED
       /\ HandleStartServer st = (EVENT_SKIPPED, st)))
  /\ ((serverStatus st = RUNNING
       /\ fst (HandleStopServer st) = EVENT_DONE
       /\ serverStatus (snd (HandleStopServer st)) = STOPPING)
      \/ (serverStatus st <> RUNNING
          /\ HandleStopServer st = (EVENT_SKIPPED, st))).
Proof.
  unfold HandleStartServer, HandleStopServer.
  destruct (serverStatus st) eqn:E; cbn [ServerStatus_eqb negb fst snd serverStatus serverThread];
    split; first [left; repeat split; reflexivity
                 | right; split; [discriminate | reflexivity]].
Qed.

End Start_stop.

(** ** Binding the listener *)

Section Listener.

Import Lifecycle Server.

Lemma listens_app (a b : list RunEvent) : listens (a ++ b) = listens a ++ listens b.
Proof.
  induction a as [|[] a IH]; cbn [listens app]; rewrite ?IH; reflexivity.
Qed.

Lemma reaches_app (s : ServerStatus) (a b : list RunEvent) :
  reaches s (a ++ b) = reaches s a || reaches s b.
Proof.
  induction a as [|[] a IH]; cbn [reaches app]; rewrite ?IH;
    rewrite ?Bool.orb_assoc; reflexivity.
Qed.

Lemma serve_loop_listens (port : Z) (ts : list Tick) :
  forall last, listens (fst (serve_loop port last ts)) = [].
Proof.
  induction ts as [|t ts IH]; intros last; cbn [serve_loop]; [reflexivity|].
  destruct (ServerStatus_eqb (seen t) RUNNING); [|reflexivity].
  destruct (PrimFloat.ltb _ _); revgoals.
  - specialize (IH last). destruct (serve_loop port last ts). exact IH.
  - specialize (IH (now t)). destruct (serve_loop port (now t) ts). exact IH.
Qed.

Lemma run_listens (env : Env) (cfg : Config) :
  listens (events (ExecuteServer env cfg)) = listens (fst (bind_listener env cfg)).
Proof.
  unfold ExecuteServer.
  pose proof (serve_loop_listens (snd (bind_listener env cfg)) (ticks env) (start_time env)) as L.
  destruct (bind_listener env cfg) as [binds port]. cbn [fst snd] in *.
  destruct (serve_loop port (start_time env) (ticks env)) as [loop exited].
  cbn [events fst] in *. rewrite !listens_app, L.
  cbn [listens app]. destruct exited; cbn [listens]; now rewrite !app_nil_r.
Qed.

Lemma run_reaches_running (env : Env) (cfg : Config) :
  reaches RUNNING (events (ExecuteServer env cfg)) = true.
Proof.
  unfold ExecuteServer.
  destruct (bind_listener env cfg) as [binds port].
  destruct (serve_loop port (start_time env) (ticks env)) as [loop exited].
  cbn [events]. rewrite !reaches_app. cbn [reaches ServerStatus_eqb].
  now rewrite Bool.orb_true_r.
Qed.

(** The retry. When binding the configured port fails the run asks for
    port 0 once more, and does not when the configured port was bound;
    the port that was bound is written back to the configuration; the
    status [RUNNING] is set in the run whatever the calls gave. *)
Theorem bind_retry_then_running (env : Env) (cfg : Config) :
  ((exists p, Listen env 0 (iRemoteISOPort cfg) = Some p
              /\ listens (events (ExecuteServer env cfg))
                 = [(iRemoteISOPort cfg, Some p)]
              /\ iRemoteISOPort (config (ExecuteServer env cfg)) = p)
   \/ (Listen env 0 (iRemoteISOPort cfg) = None
       /\ listens (events (ExecuteServer env cfg))
          = [(iRemoteISOPort cfg, None); (0, Listen env 1 0)]
       /\ forall p, Listen env 1 0 = Some p ->
                    iRemoteISOPort (config (ExecuteServer env cfg)) = p))
  /\ reaches RUNNING (events (ExecuteServer env cfg)) = true.
Proof.
  split; [|apply run_reaches_running].
  rewrite run_listens. unfold ExecuteServer, bind_listener.
  destruct (Listen env 0 (iRemoteISOPort cfg)) as [p|] eqn:E.
  - left. exists p. cbn [fst snd listens].
    destruct (serve_loop p (start_time env) (ticks env)). now cbn.
  - right. cbn [fst snd listens]. split; [reflexivity|]. split; [reflexivity|].
    intros p Hp. rewrite Hp.
    destruct (serve_loop p (start_time env) (ticks env)). now cbn.
Qed.

(** C3, at a listener that binds no port. Both calls of [Listen] fail,
    the one for the configured port 8080 and the one for port 0. The
    result of the second call is not looked at, and the run goes on as
    if a port were bound: after the two calls it sets the status to
    [RUNNING], writes the port of the unbound server to the
    configuration and registers it with the directory; it ends only
    when the status check sees that a stop was asked for. The run is
    not fatal and the server does reach [RUNNING]. *)
Theorem no_port_bound_still_running :
  events (ExecuteServer Inputs.deaf_listener Inputs.config_8080)
  = [RNetInit; RListen 8080 None; RListen 0 None;
     RUpdateStatus RUNNING; RSetConfigPort 0; RRegisterServer 0;
     RNetShutdown; RUpdateStatus STOPPED]
  /\ iRemoteISOPort (config (ExecuteServer Inputs.deaf_listener Inputs.config_8080)) = 0.
Proof. split; reflexivity. Qed.

End Listener.

(** ** The scan for a server *)

Section Find_server.

Import Scan.

Variable env : Env.

Let unreachable (e : json_value) : Prop := reachable env (candidate e) = false.

Lemma string_take_all (n : nat) (s : string) :
  (String.length s <= n)%nat -> string_take n s = s.
Proof.
  revert n. induction s as [|c s IH]; intros [|n] H; cbn [string_take String.length] in *;
    try reflexivity; [lia|].
  rewrite IH; [reflexivity | lia].
Qed.

Lemma string_take_length (n : nat) (s : string) :
  (String.length (string_take n s) <= n)%nat.
Proof.
  revert n. induction s as [|c s IH]; intros [|n]; cbn [string_take String.length];
    try lia. specialize (IH n). lia.
Qed.

(** The loop stops at the first entry that answers and has asked every
    entry before it, and only those. *)
Lemma scan_entries_first (pre : list json_value) (e : json_value) (post : list json_value) :
  Forall unreachable pre ->
  reachable env (candidate e) = true ->
  fst (scan_entries env (pre ++ e :: post))
  = snprintf_url (fst (candidate e)) (snd (candidate e))
  /\ probed (snd (scan_entries env (pre ++ e :: post))) = map candidate (pre ++ [e]).
Proof.
  intros Hpre He. unfold reachable, candidate in He. cbn [fst snd] in He.
  apply andb_prop in He as [Hr Hc].
  induction Hpre as [|x pre Hx Hpre IH]; cbn [app scan_entries map].
  - rewrite Hr, Hc. cbn [fst snd probed]. split; reflexivity.
  - unfold unreachable, reachable, candidate in Hx. cbn [fst snd] in Hx.
    destruct (scan_entries env (pre ++ e :: post)) as [r evs]. cbn [fst snd] in IH.
    destruct IH as [-> IHp].
    destruct (Resolve env _ _); [destruct (Connect env _ _); [discriminate|]|];
      cbn [fst snd probed]; rewrite IHp; split; reflexivity.
Qed.

(** When no entry answers, every entry was asked and the result is the
    empty string. *)
Lemma scan_entries_none (entries : list json_value) :
  Forall unreachable entries ->
  fst (scan_entries env entries) = EmptyString
  /\ probed (snd (scan_entries env entries)) = map candidate entries.
Proof.
  induction 1 as [|x l Hx Hl IH]; cbn [scan_entries map]; [split; reflexivity|].
  unfold unreachable, reachable, candidate in Hx. cbn [fst snd] in Hx.
  destruct (scan_entries env l) as [r evs]. cbn [fst snd] in IH. destruct IH as [-> IHp].
  destruct (Resolve env _ _); [destruct (Connect env _ _); [discriminate|]|];
    cbn [fst snd probed]; rewrite IHp; split; reflexivity.
Qed.

(** Whatever answers later, an entry is asked when none before it
    answers. *)
Lemma scan_entries_asks (pre : list json_value) (e : json_value) (post : list json_value) :
  Forall unreachable pre ->
  exists rest,
    probed (snd (scan_entries env (pre ++ e :: post)))
    = map candidate pre ++ candidate e :: rest.
Proof.
  induction 1 as [|x pre Hx Hpre IH]; cbn [app scan_entries map].
  - destruct (Resolve env _ _); [destruct (Connect env _ _)|].
    + eexists. reflexivity.
    + destruct (scan_entries env post). eexists. reflexivity.
    + destruct (scan_entries env post). eexists. reflexivity.
  - destruct IH as [rest IH].
    unfold unreachable, reachable, candidate in Hx. cbn [fst snd] in Hx.
    destruct (scan_entries env (pre ++ e :: post)) as [r evs]. cbn [snd] in IH.
    exists rest.
    destruct (Resolve env _ _); [destruct (Connect env _ _); [discriminate|]|];
      cbn [snd probed]; now rewrite IH.
Qed.

(** With a directory that lists [entries], [FindServer] is the loop over
    them after the query. *)
Lemma FindServer_lists (entries : list json_value) :
  lists env entries ->
  fst (FindServer env) = fst (scan_entries env entries)
  /\ probed (snd (FindServer env))
     = (REPORT_HOSTNAME, REPORT_PORT) :: probed (snd (scan_entries env entries)).
Proof.
  intros (Hr & Hc & Hok & r & Hroot & Hch). unfold FindServer. rewrite Hr.
  destruct (GET env "/match/list") as [code body]. cbn [fst snd] in *. subst code.
  cbn [Z.eqb Pos.eqb negb]. rewrite Hok, Hroot, Hch. cbn [negb].
  destruct (scan_entries env entries) as [res evs]. cbn [fst snd probed app].
  split; reflexivity.
Qed.

End Find_server.

Section Find_server_results.

Import Scan.

Lemma scan_entries_ext (env env' : Env) (entries : list json_value) :
  (forall c, reachable env' c = reachable env c) ->
  fst (scan_entries env' entries) = fst (scan_entries env entries).
Proof.
  intros H. induction entries as [|x l IH]; cbn [scan_entries]; [reflexivity|].
  specialize (H (candidate x)). unfold reachable, candidate in H. cbn [fst snd] in H.
  destruct (scan_entries env l) as [r evs], (scan_entries env' l) as [r' evs'].
  cbn [fst] in IH. subst r'.
  destruct (Resolve env _ _), (Connect env _ _), (Resolve env' _ _), (Connect env' _ _);
    cbn [andb fst] in *; first [reflexivity | discriminate H].
Qed.

Lemma lacks_get_typed (entry : json_value) (child_name : string) (t : json_type) :
  lacks entry child_name t -> get_typed entry child_name t = None.
Proof.
  intros H. unfold get_typed, get.
  destruct (List.find _ (children entry)) as [c|] eqn:E; [|reflexivity].
  apply List.find_some in E as [Hin Hn].
  destruct (name c) as [n|] eqn:En; [|discriminate Hn].
  apply String.eqb_eq in Hn. subst n.
  specialize (H c Hin En).
  destruct t, (type c); cbn [json_type_eqb]; first [reflexivity | now destruct H].
Qed.

(** C5, as the code has it. With a directory that lists [entries]:
    [FindServer] asks the entries in their order, stops at the first one
    that answers and returns its URL [http://<ip>:<port>], cut to its
    first 1023 characters when it is longer than the buffer [url] holds;
    when the list is empty or no entry answers, every entry was asked
    and the result is the empty string; the result is the same for two
    networks on which the same addresses answer. *)
Theorem find_server_first_reachable (env : Env) (entries : list json_value) :
  lists env entries ->
  (forall pre e post,
      entries = pre ++ e :: post ->
      Forall (fun x => reachable env (candidate x) = false) pre ->
      reachable env (candidate e) = true ->
      fst (FindServer env)
      = string_take 1023 (full_url (fst (candidate e)) (snd (candidate e)))
      /\ ((String.length (full_url (fst (candidate e)) (snd (candidate e))) <= 1023)%nat ->
          fst (FindServer env) = full_url (fst (candidate e)) (snd (candidate e)))
      /\ probed (snd (FindServer env))
         = (REPORT_HOSTNAME, REPORT_PORT) :: map candidate (pre ++ [e]))
  /\ (Forall (fun x => reachable env (candidate x) = false) entries ->
      fst (FindServer env) = EmptyString
      /\ probed (snd (FindServer env))
         = (REPORT_HOSTNAME, REPORT_PORT) :: map candidate entries)
  /\ (forall env',
         lists env' entries ->
         (forall c, reachable env' c = reachable env c) ->
         fst (FindServer env') = fst (FindServer env)).
Proof.
  intros L. destruct (FindServer_lists env entries L) as [Er Ep].
  split; [|split].
  - intros pre e post -> Hpre He.
    destruct (scan_entries_first env pre e post Hpre He) as [Hr Hp].
    rewrite Er, Ep, Hr, Hp. unfold snprintf_url.
    split; [reflexivity|]. split; [|reflexivity].
    intros Hlen. now apply string_take_all.
  - intros Hnone. destruct (scan_entries_none env entries Hnone) as [Hr Hp].
    now rewrite Er, Ep, Hr, Hp.
  - intros env' L' Hsame. destruct (FindServer_lists env' entries L') as [Er' _].
    rewrite Er, Er'. now apply scan_entries_ext.
Qed.

Lemma find_server_first_reachable_witness :
  lists (Inputs.directory [Inputs.peer_10_0_0_5; Inputs.peer_10_0_0_7]
           (fun h _ => String.eqb h "10.0.0.7"))
        [Inputs.peer_10_0_0_5; Inputs.peer_10_0_0_7]
  /\ fst (FindServer (Inputs.directory [Inputs.peer_10_0_0_5; Inputs.peer_10_0_0_7]
                        (fun h _ => String.eqb h "10.0.0.7")))
     = "http://10.0.0.7:9000".
Proof.
  assert (L : lists (Inputs.directory [Inputs.peer_10_0_0_5; Inputs.peer_10_0_0_7]
                       (fun h _ => String.eqb h "10.0.0.7"))
                    [Inputs.peer_10_0_0_5; Inputs.peer_10_0_0_7]).
  { repeat split. eexists. split; reflexivity. }
  split; [exact L|].
  destruct (find_server_first_reachable _ _ L) as [F _].
  destruct (F [Inputs.peer_10_0_0_5] Inputs.peer_10_0_0_7 [] eq_refl) as (_ & E & _).
  - repeat constructor.
  - reflexivity.
  - apply E. vm_compute. lia.
Defined.

(** C5 as stated fails: for an entry with a host of 1100 characters that
    answers, the string returned has 1023 characters and is not the URL
    [http://<ip>:<port>] of the entry. *)
Lemma long_host_counterexample :
  lists (Inputs.directory [Inputs.peer_long_host] (fun _ _ => true))
        [Inputs.peer_long_host]
  /\ reachable (Inputs.directory [Inputs.peer_long_host] (fun _ _ => true))
               (candidate Inputs.peer_long_host) = true
  /\ fst (FindServer (Inputs.directory [Inputs.peer_long_host] (fun _ _ => true)))
     <> full_url (fst (candidate Inputs.peer_long_host))
                 (snd (candidate Inputs.peer_long_host)).
Proof.
  split; [repeat split; eexists; split; reflexivity|].
  split; [reflexivity|].
  intros H. apply (f_equal String.length) in H. vm_compute in H. discriminate H.
Qed.

(** C6. When the directory host does not resolve, or the status is not
    200, or the body does not parse, or it has no root, [FindServer]
    returns the empty string without asking any peer: the only address
    it resolved is that of the directory. *)
Theorem no_listing_no_server (env : Env) :
  Resolve env REPORT_HOSTNAME REPORT_PORT = false
  \/ fst (GET env "/match/list") <> 200
  \/ ok (parse env (snd (GET env "/match/list"))) = false
  \/ root (parse env (snd (GET env "/match/list"))) = None ->
  fst (FindServer env) = EmptyString
  /\ probed (snd (FindServer env)) = [(REPORT_HOSTNAME, REPORT_PORT)].
Proof.
  intros H. unfold FindServer.
  destruct (Resolve env REPORT_HOSTNAME REPORT_PORT) eqn:Er.
  - destruct (GET env "/match/list") as [code body]. cbn [fst snd] in H.
    destruct (code =? 200) eqn:Ec; cbn [negb]; [|split; reflexivity].
    apply Z.eqb_eq in Ec. subst code.
    destruct (ok (parse env body)) eqn:Eo; cbn [negb]; [|split; reflexivity].
    destruct (root (parse env body)) eqn:Eroot; [|split; reflexivity].
    destruct H as [H|[H|[H|H]]]; first [discriminate H | congruence].
  - cbn [Z.eqb negb]. split; reflexivity.
Qed.

Lemma no_listing_no_server_witness :
  Resolve Inputs.no_directory REPORT_HOSTNAME REPORT_PORT = false
  /\ fst (FindServer Inputs.no_directory) = EmptyString
  /\ probed (snd (FindServer Inputs.no_directory)) = [(REPORT_HOSTNAME, REPORT_PORT)].
Proof.
  split; [reflexivity|].
  apply (no_listing_no_server Inputs.no_directory). left. reflexivity.
Defined.

(** C10. An entry without a string child [ip] or without an integer
    child [p] is not skipped: the host is then the empty string and the
    port is then 0, the entry is asked at its place in the order, after
    the entries before it, and when it answers the result is the URL
    made of these values, [http://:0] when both are missing. *)
Theorem missing_fields_defaults (env : Env) (entries pre : list json_value)
    (e : json_value) (post : list json_value) :
  lists env entries ->
  entries = pre ++ e :: post ->
  Forall (fun x => reachable env (candidate x) = false) pre ->
  lacks e "ip" JSON_STRING \/ lacks e "p" JSON_INT ->
  (lacks e "ip" JSON_STRING -> fst (candidate e) = EmptyString)
  /\ (lacks e "p" JSON_INT -> snd (candidate e) = 0)
  /\ (exists rest,
         probed (snd (FindServer env))
         = (REPORT_HOSTNAME, REPORT_PORT) :: map candidate pre ++ candidate e :: rest)
  /\ (reachable env (candidate e) = true ->
      fst (FindServer env) = snprintf_url (fst (candidate e)) (snd (candidate e)))
  /\ (lacks e "ip" JSON_STRING -> lacks e "p" JSON_INT ->
      snprintf_url (fst (candidate e)) (snd (candidate e)) = "http://:0").
Proof.
  intros L -> Hpre _.
  destruct (FindServer_lists env _ L) as [Er Ep].
  assert (Hip : lacks e "ip" JSON_STRING -> fst (candidate e) = EmptyString).
  { intros H. unfold candidate, getString. cbn [fst]. now rewrite lacks_get_typed. }
  assert (Hp : lacks e "p" JSON_INT -> snd (candidate e) = 0).
  { intros H. unfold candidate, getInt. cbn [snd]. now rewrite lacks_get_typed. }
  split; [exact Hip|]. split; [exact Hp|]. split; [|split].
  - destruct (scan_entries_asks env pre e post Hpre) as [rest Hrest].
    exists rest. now rewrite Ep, Hrest.
  - intros He. rewrite Er. now apply scan_entries_first.
  - intros H1 H2. now rewrite (Hip H1), (Hp H2).
Qed.

Lemma missing_fields_defaults_witness :
  lacks Inputs.peer_without_fields "ip" JSON_STRING
  /\ fst (FindServer (Inputs.directory [Inputs.peer_10_0_0_5; Inputs.peer_without_fields]
                        (fun h _ => String.eqb h EmptyString)))
     = "http://:0".
Proof.
  assert (A : forall n t, n <> "name" ->
                          lacks Inputs.peer_without_fields n t).
  { intros n t Hn c [<-|[]] [= <-]. now destruct Hn. }
  split; [apply A; discriminate|].
  destruct (missing_fields_defaults
              (Inputs.directory [Inputs.peer_10_0_0_5; Inputs.peer_without_fields]
                 (fun h _ => String.eqb h EmptyString))
              [Inputs.peer_10_0_0_5; Inputs.peer_without_fields]
              [Inputs.peer_10_0_0_5] Inputs.peer_without_fields [])
    as (_ & _ & _ & R & U).
  - repeat split. eexists. split; reflexivity.
  - reflexivity.
  - repeat constructor.
  - left. apply A. discriminate.
  - rewrite R by reflexivity. apply U; apply A; discriminate.
Defined.

End Find_server_results.

(** * Further properties *)

(** ** The handler: shape of every answer *)

Section Handler_shape.

Import Http Answers.

#[local] Arguments String.append !_ _ / : simpl nomatch.

Lemma stream_chunks_loop_events (fp : CFile) (len : Z) :
  forall (fuel fpos : nat) (buf : list byte) (pos : Z) (evs : list Event),
    stream_chunks fuel fp fpos buf pos len = Some evs ->
    forallb loop_event evs = true.
Proof.
  induction fuel as [|fuel IH]; intros fpos buf pos evs; cbn [stream_chunks];
    [discriminate|].
  destruct (pos <? len); [|now intros [= <-]].
  destruct (fread fp fpos buf _) as [[items buf'] fpos'].
  destruct (stream_chunks fuel fp fpos' buf' _ len) as [rest|] eqn:E; [|discriminate].
  intros [= <-]. cbn [forallb loop_event andb]. now apply (IH _ _ _ _ E).
Qed.

Lemma loop_events_counts (evs : list Event) :
  forallb loop_event evs = true ->
  headers evs = [] /\ count_open evs = O /\ count_open_ok evs = O
  /\ count_close evs = O /\ opened evs = false.
Proof.
  induction evs as [|e evs IH]; [now repeat split|].
  cbn [forallb]. intros H. apply andb_prop in H as [He H].
  destruct (IH H) as (? & ? & ? & ? & ?).
  destruct e; try discriminate He; now repeat split.
Qed.

Lemma count_open_app (a b : list Event) :
  count_open (a ++ b) = (count_open a + count_open b)%nat.
Proof. induction a as [|[] a IH]; cbn [count_open app]; rewrite ?IH; reflexivity. Qed.

Lemma count_open_ok_app (a b : list Event) :
  count_open_ok (a ++ b) = (count_open_ok a + count_open_ok b)%nat.
Proof.
  induction a as [|[| | |? []| | |] a IH]; cbn [count_open_ok app]; rewrite ?IH; reflexivity.
Qed.

Lemma count_close_app (a b : list Event) :
  count_close (a ++ b) = (count_close a + count_close b)%nat.
Proof. induction a as [|[] a IH]; cbn [count_close app]; rewrite ?IH; reflexivity. Qed.

End Handler_shape.

Section Handler_answers.

Import Http Answers.

Variable fs : FileSystem.
Variable fuel : nat.
Variable paths : gmap string string.
Variable request : Request.

(** X1. Every answer of the handler carries exactly one header, written
    before anything is pushed; its status is one of 200, 206, 400, 416,
    418 and 500; it is 200 exactly for a HEAD request and 418 exactly
    for another request without a range header; the file is opened for
    the answers 206 and 500 and for no other. *)
Theorem handler_single_header (evs : list Event) :
  fst (handler fs fuel paths request) = Some evs ->
  exists pre st sz ty oh post,
    evs = pre ++ EvHeader st sz ty oh :: post
    /\ headers pre = [] /\ pushed pre = [] /\ headers post = []
    /\ In st [200; 206; 400; 416; 418; 500]
    /\ (st = 200 <-> method request = HEAD)
    /\ (st = 418 <-> method request <> HEAD /\ GetHeader request "range" = None)
    /\ (opened evs = true <-> st = 206 \/ st = 500).
Proof.
  unfold handler. destruct (map_index paths (resource request)) as [filename paths'].
  cbn [fst].
  destruct (method request) eqn:Em; cbn [Method_eqb];
    try (intros [= <-]; exists [];
         do 5 eexists; split; [reflexivity|]; cbn;
         repeat split; intros; try tauto; try discriminate; try lia; try congruence; fail).
  all: destruct (GetHeader request "range") as [range|] eqn:Er;
    [|intros [= <-]; exists []; do 5 eexists; split; [reflexivity|]; cbn;
      repeat split; intros; try tauto; try discriminate; try lia;
      intuition (try discriminate; try lia)].
  all: destruct (CFormat.sscanf_range range) as [[n b] l];
    destruct (negb (n =? 2));
    [intros [= <-]; exists []; do 5 eexists; split; [reflexivity|]; cbn;
      repeat split; intros; try tauto; try discriminate; try lia;
      intuition (try discriminate; try lia)|].
  all: destruct ((b <? 0) || (b >? l) || (l >=? Int.to_s64 (GetFileSize fs filename)));
    [intros [= <-]; exists []; do 5 eexists; split; [reflexivity|]; cbn;
      repeat split; intros; try tauto; try discriminate; try lia;
      intuition (try discriminate; try lia)|].
  all: destruct (OpenCFile fs filename) as [fp|];
    [|intros [= <-]; exists [EvOpen filename false]; do 5 eexists;
      split; [reflexivity|]; cbn;
      repeat split; intros; try tauto; try discriminate; try lia;
      intuition (try discriminate; try lia)].
  all: destruct (seekable fp); cbn [negb];
    [|intros [= <-]; exists [EvOpen filename true; EvSeek b false]; do 5 eexists;
      split; [reflexivity|]; cbn;
      repeat split; intros; try tauto; try discriminate; try lia;
      intuition (try discriminate; try lia)].
  all: destruct (stream_chunks _ _ _ _ _ _) as [chunks|] eqn:E; [|discriminate];
    intros [= <-]; exists [EvOpen filename true; EvSeek b true]; do 5 eexists;
    split; [reflexivity|];
    apply stream_chunks_loop_events, loop_events_counts in E;
    destruct E as (Hh & _); cbn [headers pushed opened];
    rewrite headers_app, Hh; cbn;
    repeat split; intros; try tauto; try discriminate; try lia;
    intuition (try discriminate; try lia).
Qed.

(** X2. In every answer the file is opened at most once, and it is
    closed exactly when it was opened with success: no answer leaves a
    file open, none closes a file it did not open. *)
Theorem handler_closes_what_it_opens (evs : list Event) :
  fst (handler fs fuel paths request) = Some evs ->
  (count_open evs <= 1)%nat /\ count_close evs = count_open_ok evs.
Proof.
  unfold handler. destruct (map_index paths (resource request)) as [filename paths'].
  cbn [fst].
  destruct (Method_eqb (method request) HEAD); [intros [= <-]; cbn; lia|].
  destruct (GetHeader request "range") as [range|]; [|intros [= <-]; cbn; lia].
  destruct (CFormat.sscanf_range range) as [[n b] l].
  destruct (negb (n =? 2)); [intros [= <-]; cbn; lia|].
  destruct ((b <? 0) || (b >? l) || (l >=? Int.to_s64 (GetFileSize fs filename)));
    [intros [= <-]; cbn; lia|].
  destruct (OpenCFile fs filename) as [fp|]; [|intros [= <-]; cbn; lia].
  destruct (seekable fp); cbn [negb]; [|intros [= <-]; cbn; lia].
  destruct (stream_chunks _ _ _ _ _ _) as [chunks|] eqn:E; [|discriminate].
  intros [= <-]. apply stream_chunks_loop_events, loop_events_counts in E.
  destruct E as (_ & Ho & Hok & Hc & _).
  cbn [app count_open count_open_ok count_close].
  rewrite count_open_app, count_open_ok_app, count_close_app, Ho, Hok, Hc. cbn. lia.
Qed.

End Handler_answers.

(** ** The handler: the pieces of a 206 answer *)

Section Chunks.

Import Http Answers.

#[local] Arguments String.append !_ _ / : simpl nomatch.

Lemma chunk_sizes_step (n : Z) :
  0 < n ->
  chunk_sizes n
  = Z.to_nat (Z.min n CHUNK_SIZE)
      :: (if 0 <? n - CHUNK_SIZE then chunk_sizes (n - CHUNK_SIZE) else []).
Proof.
  intros Hn. unfold chunk_sizes, CHUNK_SIZE.
  destruct (Z.lt_trichotomy n (16 * 1024)) as [Hlt|[->|Hgt]].
  - rewrite Z.div_small, Z.mod_small by lia.
    destruct (Z.eqb_spec n 0); [lia|].
    destruct (Z.ltb_spec 0 (n - 16 * 1024)); [lia|].
    change (Z.to_nat 0) with 0%nat. cbn [replicate app].
    now rewrite Z.min_l by lia.
  - reflexivity.
  - assert (M : n mod (16 * 1024) = (n - 16 * 1024) mod (16 * 1024)).
    { replace n with ((n - 16 * 1024) + 1 * (16 * 1024)) at 1 by lia.
      now rewrite Z.mod_add by lia. }
    rewrite M.
    replace (n `div` (16 * 1024)) with ((n - 16 * 1024) `div` (16 * 1024) + 1).
    2:{ replace n with ((n - 16 * 1024) + 1 * (16 * 1024)) at 2 by lia.
        now rewrite Z.div_add by lia. }
    pose proof (Z.div_pos (n - 16 * 1024) (16 * 1024) ltac:(lia) ltac:(lia)).
    rewrite Z2Nat.inj_add by lia. rewrite Nat.add_comm.
    change (Z.to_nat 1) with 1%nat. cbn [Nat.add replicate app].
    destruct (Z.ltb_spec 0 (n - 16 * 1024)); [|lia].
    f_equal. lia.
Qed.

Lemma fread_buffer (fp : CFile) (fpos : nat) (buf : list byte) (size : Z) :
  (Z.to_nat size <= length buf)%nat ->
  length (fread fp fpos buf size).1.2 = length buf
  /\ length (take (Z.to_nat size) (fread fp fpos buf size).1.2) = Z.to_nat size.
Proof.
  intros H. unfold fread. cbn [fst snd].
  set (got := take (Z.to_nat size) (drop fpos (contents fp))).
  assert (length got <= Z.to_nat size)%nat by (subst got; rewrite length_take; lia).
  rewrite length_take, length_app, length_drop. lia.
Qed.

(** Whatever the reads give, the loop pushes the pieces of
    [chunk_sizes]. *)
Lemma stream_chunks_sizes (fp : CFile) (len : Z) :
  len <= 2 ^ 63 - CHUNK_SIZE ->
  forall (fuel fpos : nat) (buf : list byte) (pos : Z),
    0 <= pos ->
    length buf = Z.to_nat CHUNK_SIZE ->
    (Z.to_nat (len - pos) < fuel)%nat ->
    exists evs,
      stream_chunks fuel fp fpos buf pos len = Some evs
      /\ map length (pushed evs)
         = if 0 <? len - pos then chunk_sizes (len - pos) else [].
Proof.
  intros Hlen.
  induction fuel as [|fuel IH]; intros fpos buf pos Hpos Hbuf Hfuel; [lia|].
  cbn [stream_chunks].
  destruct (pos <? len) eqn:E.
  - apply Z.ltb_lt in E.
    assert (HC : CHUNK_SIZE = 16 * 1024) by reflexivity.
    rewrite (to_s64_id (len - pos))
      by (unfold Int.in_s64, Int.s64_min, Int.s64_max; lia).
    rewrite (to_s64_id (pos + CHUNK_SIZE))
      by (unfold Int.in_s64, Int.s64_min, Int.s64_max; lia).
    set (chunklen := Z.min (len - pos) CHUNK_SIZE).
    destruct (fread_buffer fp fpos buf chunklen) as [Hb Ht]; [subst chunklen; lia|].
    destruct (fread fp fpos buf chunklen) as [[items buf'] fpos']. cbn [fst snd] in *.
    destruct (IH fpos' buf' (pos + CHUNK_SIZE)) as (evs & -> & Hs);
      [lia | congruence | lia |].
    eexists. split; [reflexivity|].
    cbn [pushed map]. rewrite Ht, Hs.
    replace (0 <? len - pos) with true by (symmetry; apply Z.ltb_lt; lia).
    rewrite (chunk_sizes_step (len - pos)) by lia.
    fold chunklen. now replace (len - (pos + CHUNK_SIZE)) with (len - pos - CHUNK_SIZE) by lia.
  - apply Z.ltb_ge in E. exists []. split; [reflexivity|].
    replace (0 <? len - pos) with false by (symmetry; apply Z.ltb_ge; lia). reflexivity.
Qed.

Lemma chunk_sizes_sum (n : Z) :
  0 <= n -> Z.of_nat (list_sum (chunk_sizes n)) = n.
Proof.
  intros Hn. unfold chunk_sizes, CHUNK_SIZE.
  pose proof (Z.div_mod n (16 * 1024) ltac:(lia)) as D.
  pose proof (Z.mod_pos_bound n (16 * 1024) ltac:(lia)) as M.
  pose proof (Z.div_pos n (16 * 1024) Hn ltac:(lia)) as Q.
  assert (R : forall k c, list_sum (replicate k c) = (k * c)%nat).
  { induction k as [|k IHk]; intros c; [reflexivity|].
    change (list_sum (replicate (S k) c)) with (c + list_sum (replicate k c))%nat.
    rewrite IHk. lia. }
  rewrite list_sum_app, R.
  destruct (Z.eqb_spec (n mod (16 * 1024)) 0) as [E|E].
  - change (list_sum []) with 0%nat. lia.
  - change (list_sum [Z.to_nat (n mod (16 * 1024))])
      with (Z.to_nat (n mod (16 * 1024)) + 0)%nat. lia.
Qed.

Variable fs : FileSystem.
Variable paths : gmap string string.
Variable request : Request.
Variable filename : string.
Hypothesis served : paths !! resource request = Some filename.

(** X3. Once the range is accepted and the file is open and positioned,
    the body has exactly Content-Length bytes whatever the file gives
    when read: it is pushed in full pieces of 16 KiB and, when the
    length is no multiple of that, one last shorter piece. *)
Theorem body_has_content_length (fuel : nat) (fp : CFile) (start end_ : Z) :
  method request = GET ->
  GetHeader request "range"
  = Some ("bytes=" +:+ CFormat.print_dec start +:+ "-" +:+ CFormat.print_dec end_) ->
  OpenCFile fs filename = Some fp ->
  seekable fp = true ->
  GetFileSize fs filename <= 2 ^ 63 - CHUNK_SIZE ->
  0 <= start <= end_ /\ end_ < GetFileSize fs filename ->
  (Z.to_nat (end_ - start + 1) < fuel)%nat ->
  exists evs other,
    fst (handler fs fuel paths request) = Some evs
    /\ headers evs = [EvHeader 206 (end_ - start + 1) "application/octet-stream" other]
    /\ map length (pushed evs) = chunk_sizes (end_ - start + 1)
    /\ Z.of_nat (length (body evs)) = end_ - start + 1.
Proof.
  intros Hm Hr Ho Hk Hbig [Hse He] Hfuel.
  assert (HC : CHUNK_SIZE = 16 * 1024) by reflexivity.
  assert (R : forall z, 0 <= z <= GetFileSize fs filename -> Int.in_s64 z)
    by (unfold Int.in_s64, Int.s64_min, Int.s64_max; lia).
  destruct (stream_chunks_sizes fp (end_ - start + 1) ltac:(lia) fuel
              (Z.to_nat start) (new_chars fs (Z.to_nat CHUNK_SIZE)) 0)
    as (chunks & Hrun & Hsz); [lia | | lia |].
  { unfold new_chars. rewrite length_take, length_app, length_replicate. lia. }
  rewrite Z.sub_0_r in Hsz.
  replace (0 <? end_ - start + 1) with true in Hsz by (symmetry; apply Z.ltb_lt; lia).
  pose proof (stream_chunks_no_header _ _ _ _ _ _ _ Hrun) as Hh.
  unfold handler. rewrite (map_index_served _ _ _ served), Hm, Hr.
  cbn [Method_eqb]. rewrite sscanf_range_print.
  rewrite (to_s64_id (GetFileSize fs filename)), (clamp_s64_id start), (clamp_s64_id end_)
    by (apply R; lia).
  cbn [Z.eqb Pos.eqb negb].
  replace ((start <? 0) || (start >? end_) || (end_ >=? GetFileSize fs filename))
    with false.
  2:{ symmetry. rewrite !Bool.orb_false_iff, Z.ltb_ge, Z.gtb_ltb, Z.ltb_ge, Z.geb_leb,
        Z.leb_gt. lia. }
  rewrite Ho, Hk. cbn [negb].
  rewrite (to_s64_id (end_ - start + 1)) by (apply R; lia).
  rewrite Hrun. cbn [fst]. do 2 eexists. split; [reflexivity|].
  assert (P : pushed ([EvOpen filename true; EvSeek start true;
                       EvHeader 206 (end_ - start + 1) "application/octet-stream"
                         (Some ("Content-Range: bytes " +:+ CFormat.print_dec start +:+ "-"
                            +:+ CFormat.print_dec end_ +:+ "/"
                            +:+ CFormat.print_dec (GetFileSize fs filename) +:+ CRLF))]
                        ++ chunks ++ [EvClose; EvFlush]) = pushed chunks).
  { rewrite !pushed_app. cbn [pushed app]. now rewrite app_nil_r. }
  split; [|split].
  - rewrite !headers_app, Hh. reflexivity.
  - now rewrite P.
  - unfold body. rewrite P, length_concat, Hsz. apply chunk_sizes_sum. lia.
Qed.

End Chunks.

(** ** The handler: what it takes for a range *)

Section Range_header.

Import Http Answers CFormat.

#[local] Arguments String.append !_ _ / : simpl nomatch.

Lemma scan_literal_ok (lit : string) :
  forall s r, scan_literal lit s = LitOk r <-> s = lit +:+ r.
Proof.
  induction lit as [|c lit IH]; intros s r; cbn [scan_literal String.append].
  - split; [now intros [= ->] | now intros ->].
  - destruct s as [|d s]; [split; discriminate|].
    destruct (Ascii.eqb_spec c d) as [->|Hne].
    + rewrite IH. split; [now intros -> | now intros [= ->]].
    + split; [discriminate | intros [= -> _]; now destruct Hne].
Qed.

(** What follows the second number is not looked at. *)
Lemma sscanf_range_print_rest (a b : Z) (rest : string) :
  stops rest = true ->
  sscanf_range ("bytes=" +:+ print_dec a +:+ "-" +:+ print_dec b +:+ rest)
  = (2, Int.clamp_s64 a, Int.clamp_s64 b).
Proof.
  intros H. unfold sscanf_range. cbn [String.append scan_literal Ascii.eqb Bool.eqb].
  rewrite scan_lld_print by reflexivity.
  cbn [String.append scan_literal Ascii.eqb Bool.eqb].
  now rewrite scan_lld_print.
Qed.

Lemma sscanf_range_one_number (a : Z) :
  fst (fst (sscanf_range ("bytes=" +:+ print_dec a))) = 1
  /\ fst (fst (sscanf_range ("bytes=" +:+ print_dec a +:+ "-"))) = 1.
Proof.
  unfold sscanf_range. cbn [String.append scan_literal Ascii.eqb Bool.eqb]. split.
  - rewrite <- (append_empty (print_dec a)).
    rewrite scan_lld_print by reflexivity. reflexivity.
  - rewrite scan_lld_print by reflexivity. reflexivity.
Qed.

Variable fs : FileSystem.
Variable fuel : nat.
Variable paths : gmap string string.

Let refusal : list Event :=
  [EvHeader 400 (-1) "text/plain" None;
   EvPush (text "Could not understand range request.")].

(** X4. A request other than HEAD whose range header does not begin
    with the six characters [bytes=], in this letter case, is answered
    with status 400 and a plain-text body; the file is not opened. *)
Theorem range_without_bytes_prefix (request : Request) (range : string) :
  method request <> HEAD ->
  GetHeader request "range" = Some range ->
  (forall rest, range <> "bytes=" +:+ rest) ->
  fst (handler fs fuel paths request) = Some refusal
  /\ opened refusal = false.
Proof.
  intros Hm Hr Hp. split; [|reflexivity].
  unfold handler. destruct (map_index paths (resource request)) as [filename paths'].
  cbn [fst]. replace (Method_eqb (method request) HEAD) with false
    by (destruct (method request); [reflexivity | now destruct Hm | reflexivity ..]).
  rewrite Hr. unfold sscanf_range.
  destruct (scan_literal "bytes=" range) as [| |rest] eqn:E; [reflexivity ..|].
  apply scan_literal_ok in E. now destruct (Hp rest).
Qed.

(** X5. A request other than HEAD whose range has one number only,
    [bytes=<a>] or the open-ended [bytes=<a>-] (and so the suffix form
    [bytes=-<n>]), is answered with status 400: both bounds are
    required. *)
Theorem open_ended_range_refused (request : Request) (a : Z) :
  method request <> HEAD ->
  GetHeader request "range" = Some ("bytes=" +:+ print_dec a)
  \/ GetHeader request "range" = Some ("bytes=" +:+ print_dec a +:+ "-") ->
  fst (handler fs fuel paths request) = Some refusal.
Proof.
  intros Hm Hr.
  unfold handler. destruct (map_index paths (resource request)) as [filename paths'].
  cbn [fst]. replace (Method_eqb (method request) HEAD) with false
    by (destruct (method request); [reflexivity | now destruct Hm | reflexivity ..]).
  destruct (sscanf_range_one_number a) as [E1 E2].
  destruct Hr as [-> | ->].
  - clear E2. destruct (sscanf_range ("bytes=" +:+ print_dec a)) as [[n b] l].
    cbn [fst] in E1. now subst n.
  - clear E1. destruct (sscanf_range ("bytes=" +:+ print_dec a +:+ "-")) as [[n b] l].
    cbn [fst] in E2. now subst n.
Qed.

(** X6. Text after the second number is not looked at: a request whose
    range is [bytes=<a>-<b>] followed by anything that does not start
    with a digit, such as a second range after a comma, gets the answer
    of the request for [bytes=<a>-<b>]. *)
Theorem text_after_range_ignored (request request' : Request) (a b : Z) (rest : string) :
  stops rest = true ->
  resource request' = resource request ->
  method request' = method request ->
  GetHeader request "range" = Some ("bytes=" +:+ print_dec a +:+ "-" +:+ print_dec b) ->
  GetHeader request' "range"
  = Some ("bytes=" +:+ print_dec a +:+ "-" +:+ print_dec b +:+ rest) ->
  handler fs fuel paths request' = handler fs fuel paths request.
Proof.
  intros Hs Hres Hm Hr Hr'. unfold handler.
  rewrite Hres, Hm, Hr, Hr', sscanf_range_print, sscanf_range_print_rest by exact Hs.
  reflexivity.
Qed.

(** X7. Serving requests never disturbs the table: whatever requests the
    handler is called on, every path of the table stays bound to its
    file, and when all requests are for paths of the table the table is
    the same afterwards. A request for another resource adds that
    resource, bound to the empty file name. *)
Theorem table_survives_requests (requests : list Request) :
  (forall k f, paths !! k = Some f ->
               snd (serve_requests fs fuel paths requests) !! k = Some f)
  /\ (Forall (fun r => is_Some (paths !! resource r)) requests ->
      snd (serve_requests fs fuel paths requests) = paths)
  /\ (forall r, paths !! resource r = None ->
                snd (handler fs fuel paths r) = <[resource r := EmptyString]> paths)
  /\ length (fst (serve_requests fs fuel paths requests)) = length requests.
Proof.
  assert (S : forall p r, snd (handler fs fuel p r) = snd (map_index p (resource r))).
  { intros p r. unfold handler. now destruct (map_index p (resource r)). }
  split; [|split; [|split]].
  - revert paths. induction requests as [|r rs IH]; intros p k f H; [exact H|].
    cbn [serve_requests]. specialize (S p r).
    destruct (handler fs fuel p r) as [answer p']. cbn [snd] in S.
    specialize (IH p' k f).
    destruct (serve_requests fs fuel p' rs) as [answers final]. cbn [snd] in *.
    apply IH. subst p'. unfold map_index.
    destruct (p !! resource r) eqn:E; cbn [snd]; [exact H|].
    rewrite lookup_insert_ne; [exact H | congruence].
  - revert paths. induction requests as [|r rs IH]; intros p H; [reflexivity|].
    cbn [serve_requests]. specialize (S p r).
    destruct (handler fs fuel p r) as [answer p']. cbn [snd] in S.
    inversion H as [|? ? [f Hf] Hrs]; subst.
    unfold map_index in IH, Hrs |- *. rewrite Hf in *. cbn [snd] in *.
    specialize (IH p Hrs).
    destruct (serve_requests fs fuel p rs) as [answers final]. exact IH.
  - intros r Hr. rewrite S. unfold map_index. now rewrite Hr.
  - revert paths. induction requests as [|r rs IH]; intros p; [reflexivity|].
    cbn [serve_requests]. destruct (handler fs fuel p r) as [answer p'].
    specialize (IH p'). destruct (serve_requests fs fuel p' rs) as [answers final].
    cbn [fst length] in *. now rewrite IH.
Qed.

End Range_header.

(** ** The keys of the table *)

Section Keys.

Import Paths.

#[local] Arguments String.append !_ _ / : simpl nomatch.

(** After the last separator there is none. *)
Lemma find_last_of_from_tail (set : string) (s : string) :
  forall i,
    match find_last_of_from i s set with
    | None => Forall (fun c => char_in c set = false) (list_ascii_of_string s)
    | Some j =>
        (i <= j)%nat
        /\ Forall (fun c => char_in c set = false)
                  (list_ascii_of_string (substr s (j - i + 1)))
    end.
Proof.
  induction s as [|c s IH]; intros i; cbn [find_last_of_from list_ascii_of_string];
    [constructor|].
  specialize (IH (S i)).
  destruct (find_last_of_from (S i) s set) as [j|].
  - destruct IH as [Hij Hf]. split; [lia|].
    replace (j - i + 1)%nat with (S (j - S i + 1)) by lia. exact Hf.
  - destruct (char_in c set) eqn:Ec.
    + split; [lia|]. replace (i - i + 1)%nat with 1%nat by lia.
      cbn [substr]. now destruct s.
    + constructor; assumption.
Qed.

Lemma basename_tail (win32 : bool) (filename : string) :
  exists t,
    basename win32 filename = String "/" t
    /\ Forall (fun c => char_in c (sep win32) = false) (list_ascii_of_string t).
Proof.
  unfold basename, find_last_of. cbn [String.append].
  pose proof (find_last_of_from_tail (sep win32) filename 0) as H.
  destruct (find_last_of_from 0 filename (sep win32)) as [j|].
  - destruct H as [_ H]. rewrite Nat.sub_0_r in H. eauto.
  - eauto.
Qed.

(** Replacing the spaces leaves no space and brings in no character
    other than those of [%20]. *)
Lemma ReplaceAll_spaces (P : ascii -> Prop) (input : string) :
  P "%"%char -> P "2"%char -> P "0"%char ->
  Forall P (list_ascii_of_string input) ->
  Forall (fun c => c <> " "%char /\ P c)
         (list_ascii_of_string (ReplaceAll_from 0 input " " "%20")).
Proof.
  intros P1 P2 P3. induction input as [|c input IH]; intros H;
    cbn [ReplaceAll_from list_ascii_of_string]; [constructor|].
  inversion H as [|? ? Hc Hin]; subst. specialize (IH Hin).
  cbn [String.prefix]. destruct (ascii_dec " " c) as [<-|Hne].
  - replace (String.prefix "" input) with true by now destruct input.
    cbn [String.length Nat.sub String.append list_ascii_of_string].
    repeat constructor; try discriminate; assumption.
  - constructor; [split; [congruence | assumption] | exact IH].
Qed.

(** X8. Every key of the table is a single path segment: a slash
    followed by characters none of which is a space or a path
    separator, so the directories of a file never show in its URL and
    the URL needs no further escaping of spaces. *)
Theorem url_path_single_segment (win32 : bool) (filename : string) :
  exists t,
    url_path win32 filename = String "/" t
    /\ Forall (fun c => c <> " "%char /\ char_in c (sep win32) = false)
              (list_ascii_of_string t).
Proof.
  destruct (basename_tail win32 filename) as (t & E & Ht).
  unfold url_path, ReplaceAll. rewrite E.
  cbn [ReplaceAll_from String.prefix].
  destruct (ascii_dec " " "/") as [D|_]; [discriminate D|].
  eexists. split; [reflexivity|].
  apply (ReplaceAll_spaces (fun c => char_in c (sep win32) = false));
    try exact Ht; now destruct win32.
Qed.

(** X9. A listed file is served under its key as if it were the only
    file: when no later file of the list takes the key, the handler on
    the table answers a request for the key as it does on the table
    that holds this file alone, and leaves the table as it is. *)
Theorem listed_file_served (win32 : bool) (fs : Http.FileSystem) (fuel : nat)
    (l1 : list string) (f : string) (l2 : list string) (request : Http.Request) :
  served_name win32 f = true ->
  key_free win32 (url_path win32 f) l2 ->
  Http.resource request = url_path win32 f ->
  fst (Http.handler fs fuel (ExecuteServer_paths win32 (l1 ++ f :: l2)) request)
  = fst (Http.handler fs fuel {[ url_path win32 f := f ]} request)
  /\ snd (Http.handler fs fuel (ExecuteServer_paths win32 (l1 ++ f :: l2)) request)
     = ExecuteServer_paths win32 (l1 ++ f :: l2).
Proof.
  intros Hs Hfree Hres.
  assert (L : ExecuteServer_paths win32 (l1 ++ f :: l2) !! url_path win32 f = Some f).
  { unfold ExecuteServer_paths. apply table_lookup. left. exists l1, l2. auto. }
  unfold Http.handler. rewrite Hres.
  rewrite (map_index_served _ _ _ L).
  rewrite (map_index_served {[ url_path win32 f := f ]} _ f)
    by apply lookup_singleton_eq.
  cbn [fst snd]. split; reflexivity.
Qed.

End Keys.

(** ** The serving loop *)

Section Serving_loop.

Import Lifecycle Server Runs.

Lemma slices_app (a b : list RunEvent) : slices (a ++ b) = (slices a + slices b)%nat.
Proof. induction a as [|[] a IH]; cbn [slices app]; rewrite ?IH; reflexivity. Qed.

Lemma registered_app (a b : list RunEvent) :
  registered (a ++ b) = registered a ++ registered b.
Proof. induction a as [|[] a IH]; cbn [registered app]; rewrite ?IH; reflexivity. Qed.

(** The loop serves one slice for every check that sees [RUNNING] and
    is left at the first check that sees another status. *)
Lemma serve_loop_until (port : Z) (pre : list Tick) (t : Tick) (post : list Tick) :
  Forall (fun x => seen x = RUNNING) pre ->
  seen t <> RUNNING ->
  forall last,
    snd (serve_loop port last (pre ++ t :: post)) = true
    /\ slices (fst (serve_loop port last (pre ++ t :: post))) = length pre
    /\ reaches STOPPED (fst (serve_loop port last (pre ++ t :: post))) = false.
Proof.
  intros Hpre Ht. induction Hpre as [|x pre Hx Hpre IH]; intros last;
    cbn [app serve_loop].
  - replace (ServerStatus_eqb (seen t) RUNNING) with false
      by (destruct (seen t); try reflexivity; now destruct Ht).
    now repeat split.
  - rewrite Hx. cbn [ServerStatus_eqb].
    destruct (PrimFloat.ltb _ _); revgoals.
    + specialize (IH last). destruct (serve_loop port last (pre ++ t :: post)).
      cbn [fst snd slices reaches length] in *. destruct IH as (-> & -> & ->). now repeat split.
    + specialize (IH (now x)). destruct (serve_loop port (now x) (pre ++ t :: post)).
      cbn [fst snd slices reaches length] in *. destruct IH as (-> & -> & ->). now repeat split.
Qed.

Lemma serve_loop_on (port : Z) (ts : list Tick) :
  Forall (fun x => seen x = RUNNING) ts ->
  forall last,
    snd (serve_loop port last ts) = false
    /\ slices (fst (serve_loop port last ts)) = length ts
    /\ reaches STOPPED (fst (serve_loop port last ts)) = false.
Proof.
  induction 1 as [|x ts Hx Hts IH]; intros last; cbn [serve_loop]; [now repeat split|].
  rewrite Hx. cbn [ServerStatus_eqb].
  destruct (PrimFloat.ltb _ _); revgoals.
  - specialize (IH last). destruct (serve_loop port last ts).
    cbn [fst snd slices reaches length] in *. destruct IH as (-> & -> & ->). now repeat split.
  - specialize (IH (now x)). destruct (serve_loop port (now x) ts).
    cbn [fst snd slices reaches length] in *. destruct IH as (-> & -> & ->). now repeat split.
Qed.

Lemma serve_loop_registered (port : Z) (ts : list Tick) :
  forall last,
    Forall (fun p => p = port) (registered (fst (serve_loop port last ts)))
    /\ (length (registered (fst (serve_loop port last ts)))
        <= slices (fst (serve_loop port last ts)))%nat.
Proof.
  induction ts as [|x ts IH]; intros last; cbn [serve_loop];
    [cbn; split; [constructor | lia]|].
  destruct (ServerStatus_eqb (seen x) RUNNING); [|cbn; split; [constructor | lia]].
  destruct (PrimFloat.ltb _ _); revgoals.
  - specialize (IH last). destruct (serve_loop port last ts).
    cbn [fst registered slices length] in *. destruct IH. split; [assumption | lia].
  - specialize (IH (now x)). destruct (serve_loop port (now x) ts).
    cbn [fst registered slices length] in *. destruct IH.
    split; [now constructor | lia].
Qed.

Lemma bind_listener_quiet (env : Env) (cfg : Config) :
  slices (fst (bind_listener env cfg)) = O
  /\ registered (fst (bind_listener env cfg)) = []
  /\ reaches STOPPED (fst (bind_listener env cfg)) = false.
Proof. unfold bind_listener. now destruct (Listen env 0 (iRemoteISOPort cfg)). Qed.

(** X10. The run is cooperative: it serves one slice for every status
    check that sees [RUNNING], leaves the loop at the first check that
    sees another status and then ends with the network shut down and
    the status [STOPPED]; while every check sees [RUNNING] the run does
    not return and the status [STOPPED] is not set. *)
Theorem run_stops_at_first_other_status (env : Env) (cfg : Config) :
  (forall pre t post,
      ticks env = pre ++ t :: post ->
      Forall (fun x => seen x = RUNNING) pre ->
      seen t <> RUNNING ->
      returned (ExecuteServer env cfg) = true
      /\ slices (events (ExecuteServer env cfg)) = length pre
      /\ exists front,
           events (ExecuteServer env cfg) = front ++ [RNetShutdown; RUpdateStatus STOPPED]
           /\ reaches STOPPED front = false
           /\ reaches RUNNING front = true)
  /\ (Forall (fun x => seen x = RUNNING) (ticks env) ->
      returned (ExecuteServer env cfg) = false
      /\ slices (events (ExecuteServer env cfg)) = length (ticks env)
      /\ reaches STOPPED (events (ExecuteServer env cfg)) = false).
Proof.
  unfold ExecuteServer.
  destruct (bind_listener_quiet env cfg) as (Bs & _ & Bst).
  destruct (bind_listener env cfg) as [binds port]. cbn [fst] in *.
  split.
  - intros pre t post E Hpre Ht.
    destruct (serve_loop_until port pre t post Hpre Ht (start_time env)) as (L1 & L2 & L3).
    rewrite E. destruct (serve_loop port (start_time env) (pre ++ t :: post)) as [loop exited].
    cbn [fst snd returned events] in *. subst exited.
    split; [reflexivity|]. split.
    + rewrite !slices_app, Bs, L2. cbn. lia.
    + exists ([RNetInit] ++ binds
                ++ [RUpdateStatus RUNNING; RSetConfigPort port; RRegisterServer port]
                ++ loop).
      split; [now rewrite <- !app_assoc|].
      rewrite !reaches_app, Bst, L3. cbn. split; [reflexivity|].
      now rewrite Bool.orb_true_r.
  - intros Hon.
    destruct (serve_loop_on port (ticks env) Hon (start_time env)) as (L1 & L2 & L3).
    destruct (serve_loop port (start_time env) (ticks env)) as [loop exited].
    cbn [fst snd returned events] in *. subst exited.
    split; [reflexivity|]. split.
    + rewrite !slices_app, Bs, L2. cbn. lia.
    + rewrite !reaches_app, Bst, L3. reflexivity.
Qed.

(** X11. Every registration of a run announces the port that the run
    writes back to the configuration; the server is registered once
    when it starts and then at most once per slice served; the list of
    files of the configuration is left as it was. *)
Theorem registrations_announce_config_port (env : Env) (cfg : Config) :
  Forall (fun p => p = iRemoteISOPort (config (ExecuteServer env cfg)))
         (registered (events (ExecuteServer env cfg)))
  /\ (1 <= length (registered (events (ExecuteServer env cfg)))
      <= 1 + slices (events (ExecuteServer env cfg)))%nat
  /\ recentIsos (config (ExecuteServer env cfg)) = recentIsos cfg.
Proof.
  unfold ExecuteServer.
  destruct (bind_listener_quiet env cfg) as (Bs & Br & _).
  destruct (bind_listener env cfg) as [binds port]. cbn [fst] in *.
  destruct (serve_loop_registered port (ticks env) (start_time env)) as [R1 R2].
  destruct (serve_loop port (start_time env) (ticks env)) as [loop exited].
  cbn [fst config events iRemoteISOPort recentIsos] in *.
  rewrite !registered_app, !slices_app, Br, Bs.
  assert (E : registered (if exited then [RNetShutdown; RUpdateStatus STOPPED] else []) = []
              /\ slices (if exited then [RNetShutdown; RUpdateStatus STOPPED] else []) = O)
    by now destruct exited.
  destruct E as [-> ->]. cbn [registered slices app length Nat.add].
  rewrite app_nil_r. split; [now constructor|]. split; [lia|reflexivity].
Qed.

End Serving_loop.


(** ** One server thread at a time *)

Section One_server.

Import Lifecycle System.

Lemma lookup_done_snoc (done : list Phase) (p q : Phase) (i : nat) :
  Forall (fun x => x = Finished) done ->
  (done ++ [p]) !! i = Some q ->
  q = Finished \/ (i = length done /\ q = p).
Proof.
  intros Hd H. apply lookup_snoc_Some in H as [[_ H]|[-> ->]]; [left|now right].
  rewrite Forall_lookup in Hd. exact (Hd _ _ H).
Qed.

Lemma insert_last (done : list Phase) (p q : Phase) :
  <[length done := q]> (done ++ [p]) = done ++ [q].
Proof.
  rewrite insert_app_r_alt by lia. now rewrite Nat.sub_diag.
Qed.

Lemma thread_step_finished (w : World) (i : nat) :
  threads w !! i = Some Finished \/ threads w !! i = None -> thread_step i w = w.
Proof. unfold thread_step. now intros [-> | ->]. Qed.

Lemma consistent_thread_step (w : World) (i : nat) :
  consistent w -> consistent (thread_step i w).
Proof.
  intros (done & Hd & H).
  destruct (threads w !! i) as [q|] eqn:E;
    [|rewrite thread_step_finished by (now right); now exists done].
  destruct (serverStatus (shared w)) eqn:Es.
  - rewrite thread_step_finished; [exists done; now rewrite Es|].
    left. rewrite H in *. rewrite Forall_lookup in Hd. now rewrite <- (Hd _ _ E).
  - rewrite H in E. destruct (lookup_done_snoc _ _ _ _ Hd E) as [->|[-> ->]].
    + rewrite thread_step_finished; [exists done; now rewrite Es | left; now rewrite H].
    + unfold thread_step. rewrite H, E. exists done. split; [exact Hd|].
      cbn [shared UpdateStatus serverStatus threads]. apply insert_last.
  - rewrite H in E. destruct (lookup_done_snoc _ _ _ _ Hd E) as [->|[-> ->]].
    + rewrite thread_step_finished; [exists done; now rewrite Es | left; now rewrite H].
    + unfold thread_step. rewrite H, E. unfold RetrieveStatus. rewrite Es.
      cbn [ServerStatus_eqb]. exists done. now rewrite Es.
  - destruct H as [H|H]; rewrite H in E;
      destruct (lookup_done_snoc _ _ _ _ Hd E) as [->|[-> ->]].
    + rewrite thread_step_finished; [exists done; rewrite Es; auto | left; now rewrite H].
    + unfold thread_step. rewrite H, E. unfold RetrieveStatus. rewrite Es.
      cbn [ServerStatus_eqb]. exists done. split; [exact Hd|].
      cbn [shared threads]. rewrite Es. right. apply insert_last.
    + rewrite thread_step_finished; [exists done; rewrite Es; auto | left; now rewrite H].
    + unfold thread_step. rewrite H, E. exists (done ++ [Finished]).
      split; [apply Forall_app; split; [exact Hd | now constructor]|].
      cbn [shared UpdateStatus serverStatus threads]. apply insert_last.
Qed.

Lemma consistent_act (w : World) (a : Action) :
  consistent w -> consistent (act w a).
Proof.
  destruct a as [| | |i]; cbn [act]; [| | |apply consistent_thread_step];
    intros (done & Hd & H); exists done; (split; [exact Hd|]).
  - unfold start, HandleStartServer.
    destruct (serverStatus (shared w)) eqn:Es; cbn [ServerStatus_eqb negb shared threads];
      rewrite ?Es; cbn [serverStatus]; now rewrite ?H.
  - unfold stop, HandleStopServer.
    destruct (serverStatus (shared w)) eqn:Es; cbn [ServerStatus_eqb negb shared threads snd];
      rewrite ?Es; cbn [serverStatus]; auto.
  - unfold update. cbn [shared threads].
    replace (serverStatus _) with (serverStatus (shared w)); [exact H|].
    destruct (serverStopping_ (shared w) && _), (Bool.eqb _ _); reflexivity.
Qed.

Lemma consistent_run (actions : list Action) : consistent (run actions initial).
Proof.
  induction actions as [|a actions IH] using rev_ind.
  - exists []. split; [constructor | reflexivity].
  - unfold run. rewrite fold_left_app. cbn [fold_left]. now apply consistent_act.
Qed.

Lemma consistent_live (w : World) :
  consistent w ->
  (live_threads w <= 1)%nat
  /\ (serverStatus (shared w) = STOPPED <-> live_threads w = O).
Proof.
  intros (done & Hd & H). unfold live_threads.
  assert (F : List.filter live done = []).
  { clear H. induction Hd as [|x l -> _ IH]; [reflexivity | exact IH]. }
  destruct (serverStatus (shared w)); [| | |destruct H as [H|H]];
    rewrite H, ?List.filter_app, F; cbn; (split; [lia | split; [try discriminate; auto | try lia; auto]]).
Qed.

(** X12. Whatever the order of clicks on start and stop, screen updates
    and steps of the server threads: at most one thread that runs
    [ExecuteServer] has not yet set [STOPPED], and the status is
    [STOPPED] exactly when there is none; so [update] drops the thread
    object only when its thread has set [STOPPED]. *)
Theorem one_server_thread (actions : list Action) :
  (live_threads (run actions initial) <= 1)%nat
  /\ (serverStatus (shared (run actions initial)) = STOPPED
      <-> live_threads (run actions initial) = O)
  /\ (serverThread (shared (run actions initial)) <> None ->
      serverThread (shared (update (run actions initial))) = None ->
      live_threads (run actions initial) = O).
Proof.
  destruct (consistent_live _ (consistent_run actions)) as [H1 H2].
  split; [exact H1|]. split; [exact H2|].
  intros Hsome Hnone. apply H2. unfold update in Hnone. cbn [shared] in Hnone.
  unfold RetrieveStatus in Hnone.
  destruct (serverStatus (shared (run actions initial))); [reflexivity | ..];
    cbn [ServerStatus_eqb negb andb] in Hnone;
    rewrite Bool.andb_false_r in Hnone;
    destruct (Bool.eqb _ _); cbn [serverThread] in Hnone; contradiction.
Qed.

(** X13. From any reachable state in which the server is stopped, a
    click on start, the thread's next step, a click on stop and the
    thread's next two steps bring the server through [RUNNING] back to
    [STOPPED], with the new thread done: start, run, stop and wait
    completes by the thread's own steps. *)
Theorem start_stop_cycle_completes (actions : list Action) :
  serverStatus (shared (run actions initial)) = STOPPED ->
  let w := run actions initial in
  let n := length (threads w) in
  serverStatus (shared (run [UiStart; ThreadStep n] w)) = RUNNING
  /\ serverStatus (shared (run [UiStart; ThreadStep n; UiStop] w)) = STOPPING
  /\ serverStatus (shared (run [UiStart; ThreadStep n; UiStop; ThreadStep n; ThreadStep n] w))
     = STOPPED
  /\ threads (run [UiStart; ThreadStep n; UiStop; ThreadStep n; ThreadStep n] w)
     = threads w ++ [Finished].
Proof.
  intros Es w n. subst w n. set (w := run actions initial) in *.
  unfold run. cbn [fold_left act].
  assert (S1 : shared (start w)
               = snd (HandleStartServer (shared w))
               /\ threads (start w) = threads w ++ [Binding]
               /\ serverStatus (shared (start w)) = STARTING).
  { unfold start, HandleStartServer. rewrite Es. cbn. auto. }
  destruct S1 as (_ & T1 & E1).
  set (w1 := start w) in *.
  assert (S2 : threads (thread_step (length (threads w)) w1) = threads w ++ [Serving]
               /\ serverStatus (shared (thread_step (length (threads w)) w1)) = RUNNING).
  { unfold thread_step. rewrite T1, list_lookup_middle by reflexivity.
    cbn [threads shared UpdateStatus serverStatus]. now rewrite insert_last. }
  destruct S2 as (T2 & E2). set (w2 := thread_step (length (threads w)) w1) in *.
  assert (S3 : threads (stop w2) = threads w ++ [Serving]
               /\ serverStatus (shared (stop w2)) = STOPPING).
  { unfold stop, HandleStopServer. rewrite E2. cbn. auto. }
  destruct S3 as (T3 & E3). set (w3 := stop w2) in *.
  assert (S4 : threads (thread_step (length (threads w)) w3) = threads w ++ [Leaving]
               /\ serverStatus (shared (thread_step (length (threads w)) w3)) = STOPPING).
  { unfold thread_step. rewrite T3, list_lookup_middle by reflexivity.
    unfold RetrieveStatus. rewrite E3. cbn [ServerStatus_eqb threads shared].
    now rewrite insert_last. }
  destruct S4 as (T4 & E4). set (w4 := thread_step (length (threads w)) w3) in *.
  split; [exact E2|]. split; [exact E3|].
  unfold thread_step at 1 2. rewrite T4, list_lookup_middle by reflexivity.
  cbn [threads shared UpdateStatus serverStatus]. now rewrite insert_last.
Qed.

End One_server.

(** ** The scan: what it returns and what it sends *)

Section Scan_results.

Import Scan Probes.

#[local] Arguments String.append !_ _ / : simpl nomatch.

Lemma string_take_prefix (p s : string) (n : nat) :
  string_take (String.length p + n) (p +:+ s) = p +:+ string_take n s.
Proof.
  induction p as [|c p IH]; cbn [String.length Nat.add String.append string_take];
    [reflexivity | now rewrite IH].
Qed.

Lemma snprintf_url_shape (host : string) (port : Z) :
  exists t, snprintf_url host port = "http://" +:+ t.
Proof.
  unfold snprintf_url, full_url.
  change 1023%nat with (String.length "http://" + 1016)%nat.
  rewrite string_take_prefix. eauto.
Qed.

Lemma reachable_or_not (env : Env) (entries : list json_value) :
  Forall (fun x => reachable env (candidate x) = false) entries
  \/ exists pre e post,
       entries = pre ++ e :: post
       /\ Forall (fun x => reachable env (candidate x) = false) pre
       /\ reachable env (candidate e) = true.
Proof.
  induction entries as [|x l IH]; [left; constructor|].
  destruct (reachable env (candidate x)) eqn:E.
  - right. exists [], x, l. repeat split; [constructor | exact E].
  - destruct IH as [IH|(pre & e & post & -> & Hpre & He)].
    + left. now constructor.
    + right. exists (x :: pre), e, post. repeat split; [now constructor | exact He].
Qed.

(** X14. With a directory that lists [entries], [FindServer] returns a
    non-empty string exactly when one of the entries answers; what it
    returns is empty or begins with [http://], and is never longer than
    1023 characters. *)
Theorem find_server_found_iff_reachable (env : Env) (entries : list json_value) :
  lists env entries ->
  (fst (FindServer env) <> EmptyString
   <-> Exists (fun x => reachable env (candidate x) = true) entries)
  /\ (fst (FindServer env) = EmptyString
      \/ exists t, fst (FindServer env) = "http://" +:+ t)
  /\ (String.length (fst (FindServer env)) <= 1023)%nat.
Proof.
  intros L. destruct (FindServer_lists env entries L) as [Er _]. rewrite Er.
  destruct (reachable_or_not env entries) as [Hnone|(pre & e & post & -> & Hpre & He)].
  - destruct (scan_entries_none env entries Hnone) as [-> _].
    split; [|split; [now left | cbn; lia]].
    split; [congruence|]. intros Hex. apply Exists_exists in Hex as (x & Hin & Hx).
    rewrite Forall_forall in Hnone. rewrite (Hnone x Hin) in Hx. discriminate Hx.
  - destruct (scan_entries_first env pre e post Hpre He) as [-> _].
    destruct (snprintf_url_shape (candidate e).1 (candidate e).2) as [t Ht].
    split; [|split].
    + split; [intros _ | intros _; rewrite Ht; discriminate].
      apply Exists_app. right. now constructor.
    + right. eauto.
    + apply string_take_length.
Qed.

Lemma find_server_found_iff_reachable_witness :
  fst (FindServer (Inputs.directory [Inputs.peer_10_0_0_5] (fun _ _ => false)))
  = EmptyString.
Proof.
  assert (L : lists (Inputs.directory [Inputs.peer_10_0_0_5] (fun _ _ => false))
                    [Inputs.peer_10_0_0_5]).
  { repeat split. eexists. split; reflexivity. }
  destruct (find_server_found_iff_reachable _ _ L) as ([H _] & _ & _).
  destruct (string_dec
              (fst (FindServer (Inputs.directory [Inputs.peer_10_0_0_5] (fun _ _ => false))))
              EmptyString) as [E|N]; [exact E|].
  apply H in N. apply Exists_cons in N as [N|N]; [discriminate N | inversion N].
Defined.

(** In the loop over the entries nothing is requested, and the one
    connection that is opened with success is closed. *)
Lemma scan_entries_quiet (env : Env) (entries : list json_value) :
  gets (snd (scan_entries env entries)) = []
  /\ connects (snd (scan_entries env entries)) = disconnects (snd (scan_entries env entries))
  /\ connects (snd (scan_entries env entries))
     = if string_dec (fst (scan_entries env entries)) EmptyString then O else 1%nat.
Proof.
  induction entries as [|x l IH]; cbn [scan_entries]; [now repeat split|].
  destruct (scan_entries env l) as [r evs]. cbn [fst snd] in IH. destruct IH as (G & C & N).
  destruct (Resolve env _ _); [destruct (Connect env _ _)|];
    cbn [fst snd gets connects disconnects]; now repeat split.
Qed.

(** X15. The scan exchanges no data with a peer: the only request
    [FindServer] sends is the one for [/match/list] to the directory;
    in the loop over the entries it opens at most one connection with
    success, the one to the entry whose URL it returns, and closes
    it. *)
Theorem peers_are_only_probed (env : Env) (entries : list json_value) :
  gets (snd (FindServer env))
  = (if Resolve env REPORT_HOSTNAME REPORT_PORT then ["/match/list"] else [])
  /\ gets (snd (scan_entries env entries)) = []
  /\ connects (snd (scan_entries env entries)) = disconnects (snd (scan_entries env entries))
  /\ (fst (scan_entries env entries) = EmptyString ->
      connects (snd (scan_entries env entries)) = O)
  /\ (fst (scan_entries env entries) <> EmptyString ->
      connects (snd (scan_entries env entries)) = 1%nat).
Proof.
  destruct (scan_entries_quiet env entries) as (G & C & N).
  split; [|split; [exact G | split; [exact C|]]].
  - unfold FindServer.
    assert (A : forall a b, gets (a ++ b) = gets a ++ gets b).
    { induction a as [|[] a IHa]; intros b; cbn [gets app]; rewrite ?IHa; reflexivity. }
    destruct (Resolve env REPORT_HOSTNAME REPORT_PORT).
    + destruct (GET env "/match/list") as [code body].
      destruct (negb (code =? 200)); [reflexivity|].
      destruct (negb (ok (parse env body))); [reflexivity|].
      destruct (root (parse env body)) as [r|]; [|reflexivity].
      destruct (scan_entries_quiet env (children r)) as (G' & _).
      destruct (scan_entries env (children r)) as [res evs]. cbn [snd] in *.
      rewrite A, G'. reflexivity.
    + reflexivity.
  - rewrite N. destruct (string_dec _ _); [now split | split; [contradiction | reflexivity]].
Qed.

End Scan_results.

(** ** The connect screen: when it scans again *)

Section Retry.

Import ConnectScreen.

Variable time : Type.
Variable zero : time.
Variable plus30 : time -> time.
Variable leb : time -> time -> bool.
Variable ltb : time -> time -> bool.

Let update := update time zero plus30 leb ltb.
Let updates := updates time zero plus30 leb ltb.

(** While a scan runs, [update] does nothing. *)
Lemma updates_scanning (nows : list time) (st : State time) :
  scanComplete_ time st = false -> updates nows st = st.
Proof.
  intros H. unfold updates, ConnectScreen.updates.
  induction nows as [|t nows IH]; cbn [fold_left]; [reflexivity|].
  unfold ConnectScreen.update at 2. now rewrite H.
Qed.

(** Once the retry time is set, the next scan starts at the first
    reading that is later. *)
Lemma updates_armed (nows : list time) :
  forall st : State time,
    scanComplete_ time st = true ->
    url_ time st = EmptyString ->
    leb (nextRetry_ time st) zero = false ->
    (scans time (updates nows st) <= S (scans time st))%nat
    /\ browsed time (updates nows st) = browsed time st
    /\ (scans time (updates nows st) = S (scans time st) ->
        exists l2 t1 l3, nows = l2 ++ t1 :: l3 /\ ltb (nextRetry_ time st) t1 = true).
Proof.
  induction nows as [|t nows IH]; intros st Hc Hu Hl.
  - cbn. repeat split; [lia | lia].
  - unfold updates, ConnectScreen.updates. cbn [fold_left].
    unfold ConnectScreen.update at 2 4 6. rewrite Hc, Hu, Hl. cbn [is_empty negb].
    destruct (ltb (nextRetry_ time st) t) eqn:Et.
    + fold (updates nows {| scanComplete_ := false; url_ := EmptyString;
                            nextRetry_ := zero; scans := S (scans time st);
                            browsed := browsed time st |}).
      rewrite updates_scanning by reflexivity. cbn [scans browsed].
      split; [lia|]. split; [reflexivity|]. intros _. exists [], t, nows. auto.
    + destruct (IH st Hc Hu Hl) as (H1 & H2 & H3).
      split; [exact H1|]. split; [exact H2|].
      intros E. destruct (H3 E) as (l2 & t1 & l3 & -> & Ht).
      exists (t :: l2), t1, l3. auto.
Qed.

(** X16. After a scan that found nothing, [update] starts the next scan
    only at a clock reading that is later than an earlier reading of
    [update] plus 30 seconds; it starts at most one scan and hands
    nothing to the browser. *)
Theorem rescan_waits_30_seconds (nows : list time) :
  forall st : State time,
    scanComplete_ time st = true ->
    url_ time st = EmptyString ->
    leb (nextRetry_ time st) zero = true ->
    (scans time (updates nows st) <= S (scans time st))%nat
    /\ browsed time (updates nows st) = browsed time st
    /\ (scans time (updates nows st) = S (scans time st) ->
        exists l1 t0 l2 t1 l3,
          nows = l1 ++ t0 :: l2 ++ t1 :: l3 /\ ltb (plus30 t0) t1 = true).
Proof.
  induction nows as [|t nows IH]; intros st Hc Hu Hl.
  - cbn. repeat split; [lia | lia].
  - unfold updates, ConnectScreen.updates. cbn [fold_left].
    unfold ConnectScreen.update at 2 4 6. rewrite Hc, Hu, Hl. cbn [is_empty negb].
    set (st1 := {| scanComplete_ := true; url_ := EmptyString; nextRetry_ := plus30 t;
                   scans := scans time st; browsed := browsed time st |}).
    fold (updates nows st1).
    destruct (leb (plus30 t) zero) eqn:El.
    + destruct (IH st1 eq_refl eq_refl El) as (H1 & H2 & H3).
      split; [exact H1|]. split; [exact H2|].
      intros E. destruct (H3 E) as (l1 & t0 & l2 & t1 & l3 & -> & Ht).
      exists (t :: l1), t0, l2, t1, l3. auto.
    + destruct (updates_armed nows st1 eq_refl eq_refl El) as (H1 & H2 & H3).
      split; [exact H1|]. split; [exact H2|].
      intros E. destruct (H3 E) as (l2 & t1 & l3 & -> & Ht).
      exists [], t, l2, t1, l3. auto.
Qed.

End Retry.

(** ** The properties above at concrete inputs *)

Section More_examples.

Import Http Answers Inputs MoreInputs.

Lemma handler_single_header_witness :
  exists pre st sz ty oh post,
    answer_2_5 = pre ++ EvHeader st sz ty oh :: post
    /\ headers pre = [] /\ pushed pre = [] /\ headers post = []
    /\ In st [200; 206; 400; 416; 418; 500]
    /\ (st = 200 <-> method (request_for GET (Some "bytes=2-5")) = HEAD)
    /\ (st = 418 <-> method (request_for GET (Some "bytes=2-5")) <> HEAD
                     /\ GetHeader (request_for GET (Some "bytes=2-5")) "range" = None)
    /\ (opened answer_2_5 = true <-> st = 206 \/ st = 500).
Proof.
  apply (handler_single_header small_fs 5 one_path (request_for GET (Some "bytes=2-5"))).
  reflexivity.
Defined.

Lemma handler_closes_what_it_opens_witness :
  (count_open answer_2_5 <= 1)%nat /\ count_close answer_2_5 = count_open_ok answer_2_5.
Proof.
  apply (handler_closes_what_it_opens small_fs 5 one_path
           (request_for GET (Some "bytes=2-5"))).
  reflexivity.
Defined.

Lemma body_has_content_length_witness :
  exists evs other,
    fst (handler short_read_fs 9 one_path (request_for GET (Some "bytes=0-7"))) = Some evs
    /\ headers evs = [EvHeader 206 (7 - 0 + 1) "application/octet-stream" other]
    /\ map length (pushed evs) = chunk_sizes (7 - 0 + 1)
    /\ Z.of_nat (length (body evs)) = 7 - 0 + 1.
Proof.
  apply (body_has_content_length short_read_fs one_path
           (request_for GET (Some "bytes=0-7")) "/games/a.iso" eq_refl 9
           {| contents := take 4 bytes_1_to_10; seekable := true |} 0 7).
  - reflexivity.
  - reflexivity.
  - reflexivity.
  - reflexivity.
  - unfold CHUNK_SIZE. simpl. lia.
  - simpl. lia.
  - simpl. lia.
Defined.

Lemma range_without_bytes_prefix_witness :
  fst (handler small_fs 0 one_path (request_for GET (Some "items=0-1")))
  = Some [EvHeader 400 (-1) "text/plain" None;
          EvPush (text "Could not understand range request.")]
  /\ opened [EvHeader 400 (-1) "text/plain" None;
             EvPush (text "Could not understand range request.")] = false.
Proof.
  apply (range_without_bytes_prefix small_fs 0 one_path
           (request_for GET (Some "items=0-1")) "items=0-1").
  - discriminate.
  - reflexivity.
  - intros rest H. vm_compute in H. discriminate H.
Defined.

Lemma open_ended_range_refused_witness :
  fst (handler small_fs 0 one_path (request_for GET (Some "bytes=5-")))
  = Some [EvHeader 400 (-1) "text/plain" None;
          EvPush (text "Could not understand range request.")].
Proof.
  apply (open_ended_range_refused small_fs 0 one_path
           (request_for GET (Some "bytes=5-")) 5).
  - discriminate.
  - right. reflexivity.
Defined.

Lemma text_after_range_ignored_witness :
  handler small_fs 5 one_path (request_for GET (Some "bytes=0-1,5-6"))
  = handler small_fs 5 one_path (request_for GET (Some "bytes=0-1")).
Proof.
  apply (text_after_range_ignored small_fs 5 one_path
           (request_for GET (Some "bytes=0-1"))
           (request_for GET (Some "bytes=0-1,5-6")) 0 1 ",5-6");
    reflexivity.
Defined.

Lemma listed_file_served_witness :
  fst (handler small_fs 0
         (Paths.ExecuteServer_paths false ["/games/Foo Bar.iso"; "/games/notes.txt"])
         {| resource := "/Foo%20Bar.iso"; method := HEAD; GetHeader := fun _ => None |})
  = fst (handler small_fs 0 {[ Paths.url_path false "/games/Foo Bar.iso" := "/games/Foo Bar.iso" ]}
           {| resource := "/Foo%20Bar.iso"; method := HEAD; GetHeader := fun _ => None |})
  /\ snd (handler small_fs 0
            (Paths.ExecuteServer_paths false ["/games/Foo Bar.iso"; "/games/notes.txt"])
            {| resource := "/Foo%20Bar.iso"; method := HEAD; GetHeader := fun _ => None |})
     = Paths.ExecuteServer_paths false ["/games/Foo Bar.iso"; "/games/notes.txt"].
Proof.
  apply (listed_file_served false small_fs 0 [] "/games/Foo Bar.iso" ["/games/notes.txt"]
           {| resource := "/Foo%20Bar.iso"; method := HEAD; GetHeader := fun _ => None |}).
  - reflexivity.
  - constructor; [discriminate | constructor].
  - reflexivity.
Defined.

Lemma start_stop_cycle_completes_witness :
  Lifecycle.serverStatus
    (System.shared
       (System.run [System.UiStart; System.ThreadStep 0; System.UiStop;
                    System.ThreadStep 0; System.ThreadStep 0] System.initial))
  = Lifecycle.STOPPED.
Proof.
  destruct (start_stop_cycle_completes [] eq_refl) as (_ & _ & H & _). exact H.
Defined.

Lemma rescan_waits_30_seconds_witness :
  (ConnectScreen.scans Z
     (ConnectScreen.updates Z 0%Z (fun t => (t + 30)%Z) Z.leb Z.ltb
        [100%Z; 120%Z; 131%Z] RetryInputs.nothing_found)
   <= 2)%nat.
Proof.
  destruct (rescan_waits_30_seconds Z 0 (fun t => t + 30) Z.leb Z.ltb [100; 120; 131]
              RetryInputs.nothing_found eq_refl eq_refl eq_refl) as (H & _).
  exact H.
Defined.

End More_examples.

(** ** The extension test *)

Section Extension.

Import Paths Names.

#[local] Arguments String.append !_ _ / : simpl nomatch.

Lemma tolower_sep (win32 : bool) (y : ascii) :
  char_in (tolower y) (sep win32) = char_in y (sep win32).
Proof.
  destruct win32; destruct y as [[] [] [] [] [] [] [] []]; reflexivity.
Qed.

Lemma sep_tolower (win32 : bool) (x : ascii) :
  char_in x (sep win32) = true -> tolower x = x.
Proof.
  destruct win32; destruct x as [[] [] [] [] [] [] [] []];
    intros H; first [reflexivity | discriminate H].
Qed.

Lemma eq_nocase_no_sep (win32 : bool) (a : string) :
  forall b, eq_nocase a b = true -> no_sep win32 b -> no_sep win32 a.
Proof.
  unfold no_sep.
  induction a as [|x a IH]; intros [|y b] E Hb; cbn [eq_nocase] in E;
    try discriminate E; cbn [list_ascii_of_string] in *; [constructor|].
  apply andb_prop in E as [Exy E]. inversion Hb as [|? ? Hy Hb']; subst.
  constructor; [|now apply (IH b)].
  apply Ascii.eqb_eq in Exy.
  destruct (char_in x (sep win32)) eqn:Hx; [|reflexivity].
  rewrite <- Hy, <- (tolower_sep win32 y), <- Exy, (sep_tolower _ _ Hx). now symmetry.
Qed.

(** A string ends like [what] when its rest does, or when it is as long
    as [what] and equal to it. *)
Lemma endsWithNoCase_cons (c : ascii) (s what : string) :
  endsWithNoCase (String c s) what
  = endsWithNoCase s what
    || ((String.length what =? S (String.length s))%nat && eq_nocase (String c s) what).
Proof.
  unfold endsWithNoCase. cbn [String.length].
  destruct (Nat.ltb_spec (S (String.length s)) (String.length what)) as [H1|H1].
  - destruct (Nat.ltb_spec (String.length s) (String.length what)) as [H2|H2]; [|lia].
    destruct (Nat.eqb_spec (String.length what) (S (String.length s))); [lia|reflexivity].
  - destruct (Nat.ltb_spec (String.length s) (String.length what)) as [H2|H2].
    + replace (String.length what) with (S (String.length s)) by lia.
      rewrite Nat.sub_diag, Nat.eqb_refl. reflexivity.
    + destruct (Nat.eqb_spec (String.length what) (S (String.length s))); [lia|].
      replace (S (String.length s) - String.length what)%nat
        with (S (String.length s - String.length what)) by lia.
      cbn [substr andb]. now rewrite Bool.orb_false_r.
Qed.

Lemma find_last_of_from_some (set : string) (s : string) :
  forall i j,
    find_last_of_from i s set = Some j ->
    Exists (fun c => char_in c set = true) (list_ascii_of_string s).
Proof.
  induction s as [|c s IH]; intros i j; cbn [find_last_of_from list_ascii_of_string];
    [discriminate|].
  destruct (find_last_of_from (S i) s set) as [k|] eqn:E.
  - intros _. right. exact (IH _ _ E).
  - destruct (char_in c set) eqn:Ec; [intros _; now left | discriminate].
Qed.

Lemma sep_never_matches (win32 : bool) (c : ascii) (s what : string) :
  no_sep win32 what ->
  Exists (fun x => char_in x (sep win32) = true) (list_ascii_of_string (String c s)) ->
  eq_nocase (String c s) what = false.
Proof.
  intros Hw Hex. destruct (eq_nocase (String c s) what) eqn:E; [|reflexivity].
  pose proof (eq_nocase_no_sep win32 _ _ E Hw) as Hn. unfold no_sep in Hn.
  apply Exists_exists in Hex as (x & Hin & Hx).
  rewrite Forall_forall in Hn. rewrite (Hn x Hin) in Hx. discriminate Hx.
Qed.

(** The test on the part after the last separator, with a slash put in
    front, is the test on the whole string. *)
Lemma endsWithNoCase_tail (win32 : bool) (what : string) (s : string) :
  no_sep win32 what ->
  forall i,
    endsWithNoCase
      (String "/" match find_last_of_from i s (sep win32) with
                  | None => s
                  | Some j => substr s (j - i + 1)
                  end) what
    = endsWithNoCase s what.
Proof.
  intros Hw.
  assert (Hslash : forall t, eq_nocase (String "/" t) what = false).
  { intros t. apply (sep_never_matches win32); [exact Hw|].
    cbn [list_ascii_of_string]. left. now destruct win32. }
  induction s as [|c s IH]; intros i; cbn [find_last_of_from].
  - rewrite endsWithNoCase_cons, Hslash. now rewrite Bool.andb_false_r, Bool.orb_false_r.
  - specialize (IH (S i)).
    pose proof (find_last_of_from_tail (sep win32) s (S i)) as Ht.
    destruct (find_last_of_from (S i) s (sep win32)) as [j|] eqn:E.
    + destruct Ht as [Hij _].
      replace (j - i + 1)%nat with (S (j - S i + 1)) by lia. cbn [substr].
      rewrite IH, (endsWithNoCase_cons c s).
      rewrite (sep_never_matches win32 c s what Hw).
      * now rewrite Bool.andb_false_r, Bool.orb_false_r.
      * cbn [list_ascii_of_string]. right. exact (find_last_of_from_some _ _ _ _ E).
    + destruct (char_in c (sep win32)) eqn:Ec.
      * replace (i - i + 1)%nat with 1%nat by lia. cbn [substr].
        replace (substr s 0) with s by now destruct s.
        rewrite (endsWithNoCase_cons "/"), Hslash, (endsWithNoCase_cons c s).
        rewrite (sep_never_matches win32 c s what Hw);
          [reflexivity | cbn [list_ascii_of_string]; now left].
      * rewrite (endsWithNoCase_cons "/"), Hslash.
        now rewrite Bool.andb_false_r, Bool.orb_false_r.
Qed.

(** X17. The test on the base name is the test on the path: a file of
    the list is served exactly when its path, as given, ends in [.cso]
    or [.iso], letter case ignored. *)
Theorem served_name_by_path (win32 : bool) (filename : string) :
  served_name win32 filename
  = endsWithNoCase filename ".cso" || endsWithNoCase filename ".iso".
Proof.
  unfold served_name, basename, find_last_of. cbn [String.append].
  pose proof (endsWithNoCase_tail win32 ".cso" filename) as H1.
  pose proof (endsWithNoCase_tail win32 ".iso" filename) as H2.
  specialize (H1 ltac:(destruct win32; repeat constructor) 0%nat).
  specialize (H2 ltac:(destruct win32; repeat constructor) 0%nat).
  destruct (find_last_of_from 0 filename (sep win32)) as [j|];
    change (String.append EmptyString ?x) with x.
  - rewrite Nat.sub_0_r in H1, H2. now rewrite H1, H2.
  - now rewrite H1, H2.
Qed.

End Extension.

(** ** The handler: a file that cannot be used *)

Section File_access.

Import Http Answers.

#[local] Arguments String.append !_ _ / : simpl nomatch.

(** X18. When the range is accepted and the file does not open, or opens
    and cannot be positioned, the answer is status 500 with the
    plain-text body "File access failed."; nothing is read, no byte of
    the file is sent, and a file that was opened is closed. *)
Theorem file_access_failure_500 (fs : FileSystem) (fuel : nat)
    (paths : gmap string string) (request : Request) (filename : string)
    (start end_ : Z) :
  paths !! resource request = Some filename ->
  method request = GET ->
  GetHeader request "range"
  = Some ("bytes=" +:+ CFormat.print_dec start +:+ "-" +:+ CFormat.print_dec end_) ->
  Int.in_s64 (GetFileSize fs filename) ->
  0 <= start <= end_ /\ end_ < GetFileSize fs filename ->
  OpenCFile fs filename = None
  \/ (exists fp, OpenCFile fs filename = Some fp /\ seekable fp = false) ->
  exists evs,
    fst (handler fs fuel paths request) = Some evs
    /\ headers evs = [EvHeader 500 (-1) "text/plain" None]
    /\ body evs = text "File access failed."
    /\ forallb (fun e => match e with EvRead _ _ => false | _ => true end) evs = true
    /\ count_close evs = count_open_ok evs.
Proof.
  intros Hs Hm Hr Hsz Hrange [Ho|(fp & Ho & Hk)].
  - rewrite (open_failure_500 fs paths request filename Hs fuel start end_ Hm Hr Hsz Hrange Ho).
    eexists. split; [reflexivity|]. now repeat split.
  - rewrite (seek_failure_500 fs paths request filename Hs fuel fp start end_
               Hm Hr Hsz Hrange Ho Hk).
    eexists. split; [reflexivity|]. now repeat split.
Qed.

Lemma file_access_failure_500_witness :
  exists evs,
    fst (handler MoreInputs.pipe_fs 0 Inputs.one_path
           (Inputs.request_for GET (Some "bytes=2-5"))) = Some evs
    /\ headers evs = [EvHeader 500 (-1) "text/plain" None]
    /\ body evs = text "File access failed."
    /\ forallb (fun e => match e with EvRead _ _ => false | _ => true end) evs = true
    /\ count_close evs = count_open_ok evs.
Proof.
  apply (file_access_failure_500 MoreInputs.pipe_fs 0 Inputs.one_path
           (Inputs.request_for GET (Some "bytes=2-5")) "/games/a.iso" 2 5).
  - reflexivity.
  - reflexivity.
  - reflexivity.
  - unfold Int.in_s64, Int.s64_min, Int.s64_max. simpl. lia.
  - simpl. lia.
  - right. eexists. split; reflexivity.
Defined.

End File_access.

(** ** The connect screen: from the scan to the browser *)

Section Scan_to_browser.

Import Scan ConnectScreen.

Variable time : Type.
Variable zero : time.
Variable plus30 : time -> time.
Variable leb : time -> time -> bool.
Variable ltb : time -> time -> bool.

(** X19. With a directory that lists [entries], the first [update]
    after the scan hands a URL to the browser exactly when one of the
    entries answered, and it is the URL [FindServer] returned; when none
    answered it opens nothing, starts no scan and sets the retry time
    to its clock reading plus 30 seconds. *)
Theorem browse_iff_peer_answers (env : Env) (entries : list json_value)
    (st : State time) (now : time) :
  lists env entries ->
  leb (nextRetry_ time st) zero = true ->
  let st' := update time zero plus30 leb ltb now (ExecuteScan time env st) in
  scans time st' = scans time st
  /\ (Exists (fun x => reachable env (candidate x) = true) entries ->
      browsed time st' = browsed time st ++ [fst (FindServer env)]
      /\ fst (FindServer env) <> EmptyString)
  /\ (Forall (fun x => reachable env (candidate x) = false) entries ->
      browsed time st' = browsed time st
      /\ nextRetry_ time st' = plus30 now).
Proof.
  intros L Hl st'. subst st'. unfold update, ExecuteScan.
  cbn [scanComplete_ url_ nextRetry_]. rewrite Hl.
  destruct (FindServer_lists env entries L) as [Er _].
  destruct (reachable_or_not env entries) as [Hnone|(pre & e & post & -> & Hpre & He)].
  - destruct (scan_entries_none env entries Hnone) as [E _]. rewrite Er, E.
    cbn [is_empty negb scans browsed nextRetry_].
    split; [reflexivity|]. split; [|now split].
    intros Hex. apply Exists_exists in Hex as (x & Hin & Hx).
    rewrite Forall_forall in Hnone. rewrite (Hnone x Hin) in Hx. discriminate Hx.
  - destruct (scan_entries_first env pre e post Hpre He) as [E _]. rewrite Er, E.
    destruct (snprintf_url_shape (candidate e).1 (candidate e).2) as [t Ht].
    rewrite Ht. cbn [String.append is_empty negb scans browsed].
    split; [reflexivity|]. split; [intros _; split; [reflexivity | discriminate]|].
    intros Hall. apply Forall_app in Hall as [_ Hall].
    inversion Hall as [|? ? Hx _]; subst. rewrite He in Hx. discriminate Hx.
Qed.

End Scan_to_browser.

Lemma browse_iff_peer_answers_witness :
  ConnectScreen.browsed Z
    (ConnectScreen.update Z 0 (fun t => t + 30) Z.leb Z.ltb 100
       (ConnectScreen.ExecuteScan Z (Inputs.directory [Inputs.peer_10_0_0_5] (fun _ _ => true))
          RetryInputs.nothing_found))
  = ["http://10.0.0.5:8080"].
Proof.
  assert (L : Scan.lists (Inputs.directory [Inputs.peer_10_0_0_5] (fun _ _ => true))
                    [Inputs.peer_10_0_0_5]).
  { repeat split. eexists. split; reflexivity. }
  destruct (browse_iff_peer_answers Z 0 (fun t => t + 30) Z.leb Z.ltb _ _
              RetryInputs.nothing_found 100 L eq_refl) as (_ & H & _).
  destruct H as [H _]; [left; reflexivity|]. exact H.
Defined.
